(** * ai_cv_parsing: the LLM-response normalisation pipeline

    A shallow embedding of [src/ai_cv_parsing/utils/llm_analyzer.py]:
    [parse_json_response] (the multi-level JSON recovery), the pydantic
    model [CVExtractedFields] and [extract_structured_cv_data] (the
    three-strategy fallback chain), together with the parts of the Python
    library they run on: [str.strip], [json.loads] and the three regular
    expressions handed to [re.search]. *)

From Stdlib Require Import NArith ZArith List String Ascii Bool Lia.
From Stdlib Require Import DecimalN DecimalFacts.
Import ListNotations.

Local Set Warnings "-register-all".
Local Open Scope N_scope.

(** ** Python text

    A Python [str] is a sequence of Unicode code points. *)

Definition char := N.
Definition str := list char.

(** [py] reads a literal; [js] reads a literal in which the apostrophe
    stands for the JSON double quote (code point 34). *)

Definition py (s : string) : str := map N_of_ascii (list_ascii_of_string s).

Definition js (s : string) : str :=
  map (fun a => if Ascii.eqb a "'" then 34 else N_of_ascii a)
      (list_ascii_of_string s).

Definition DQUOTE : char := 34.
Definition BACKSLASH : char := 92.
Definition LBRACE : char := 123.
Definition RBRACE : char := 125.
Definition LBRACKET : char := 91.
Definition RBRACKET : char := 93.
Definition COLON : char := 58.
Definition COMMA : char := 44.
Definition MINUS : char := 45.
Definition PLUS : char := 43.
Definition DOT : char := 46.
Definition RIGHT_ARROW : char := 8594.

Fixpoint str_eqb (a b : str) : bool :=
  match a, b with
  | [], [] => true
  | x :: a', y :: b' => (x =? y) && str_eqb a' b'
  | _, _ => false
  end.

(** [str.isspace] on one code point: the characters [str.strip()] removes
    and the class [\s] of a [str] pattern. *)
Definition isspace (c : char) : bool :=
  ((9 <=? c) && (c <=? 13)) || ((28 <=? c) && (c <=? 32))
  || (c =? 133) || (c =? 160) || (c =? 5760)
  || ((8192 <=? c) && (c <=? 8202))
  || (c =? 8232) || (c =? 8233) || (c =? 8239) || (c =? 8287) || (c =? 12288).

Fixpoint lstrip (s : str) : str :=
  match s with
  | c :: t => if isspace c then lstrip t else s
  | [] => []
  end.

Definition rstrip (s : str) : str := rev (lstrip (rev s)).

(** [s.strip()] *)
Definition strip (s : str) : str := rstrip (lstrip s).

(** [s.startswith(p)], returning what follows the prefix. *)
Fixpoint startswith (p s : str) : option str :=
  match p with
  | [] => Some s
  | x :: p' =>
      match s with
      | y :: s' => if x =? y then startswith p' s' else None
      | [] => None
      end
  end.

(** ** Python values read from JSON

    A [float] is carried as the literal it was read from; its IEEE value
    is outside the model.  A [dict] keeps insertion order. *)

Inductive json : Type :=
| JNone
| JBool (b : bool)
| JInt (n : Z)
| JFloat (lit : str)
| JStr (s : str)
| JList (l : list json)
| JDict (d : list (str * json)).

(** [d[k] = v] *)
Fixpoint dict_set (k : str) (v : json) (d : list (str * json))
  : list (str * json) :=
  match d with
  | [] => [(k, v)]
  | (k', v') :: d' =>
      if str_eqb k k' then (k', v) :: d' else (k', v') :: dict_set k v d'
  end.

(** [dict(pairs)] *)
Definition dict (pairs : list (str * json)) : list (str * json) :=
  fold_left (fun d kv => dict_set (fst kv) (snd kv) d) pairs [].

(** [d.get(k)] *)
Fixpoint dict_get (k : str) (d : list (str * json)) : option json :=
  match d with
  | [] => None
  | (k', v) :: d' => if str_eqb k k' then Some v else dict_get k d'
  end.

(** ** json.loads

    The decoder of the standard library ([json.decoder], [json.scanner]),
    with its default settings: strict strings, [NaN], [Infinity] and
    [-Infinity] accepted.  The limits of the interpreter (recursion depth,
    the length of an integer literal) are outside the model. *)

(** [WHITESPACE]: space, tab, line feed, carriage return. *)
Definition is_ws (c : char) : bool :=
  (c =? 32) || (c =? 9) || (c =? 10) || (c =? 13).

Fixpoint skip_ws (s : str) : str :=
  match s with
  | c :: t => if is_ws c then skip_ws t else s
  | [] => []
  end.

Definition is_digit (c : char) : bool := (48 <=? c) && (c <=? 57).

Definition hexval (c : char) : option N :=
  if (48 <=? c) && (c <=? 57) then Some (c - 48)
  else if (97 <=? c) && (c <=? 102) then Some (c - 87)
  else if (65 <=? c) && (c <=? 70) then Some (c - 55)
  else None.

(** The four hexadecimal digits of a [\uXXXX] escape. *)
Definition decode_uXXXX (a b c d : char) : option N :=
  match hexval a, hexval b, hexval c, hexval d with
  | Some x, Some y, Some z, Some w => Some (((x * 16 + y) * 16 + z) * 16 + w)
  | _, _, _, _ => None
  end.

Definition is_high_surrogate (u : N) : bool := (55296 <=? u) && (u <=? 56319).
Definition is_low_surrogate (u : N) : bool := (56320 <=? u) && (u <=? 57343).

Definition join_surrogates (u u2 : N) : N :=
  65536 + N.lor (N.shiftl (u - 55296) 10) (u2 - 56320).

(** [BACKSLASH]: the one-letter escapes. *)
Definition backslash_escape (e : char) : option char :=
  if e =? 34 then Some 34            (* quote *)
  else if e =? 92 then Some 92       (* backslash *)
  else if e =? 47 then Some 47       (* slash *)
  else if e =? 98 then Some 8        (* b: backspace *)
  else if e =? 102 then Some 12      (* f: form feed *)
  else if e =? 110 then Some 10      (* n: line feed *)
  else if e =? 114 then Some 13      (* r: carriage return *)
  else if e =? 116 then Some 9       (* t: tab *)
  else None.

(** [scanstring(s, end, strict=True)], entered just after the opening
    quote: the decoded string and what follows its closing quote. *)
Fixpoint scanstring (s : str) : option (str * str) :=
  match s with
  | [] => None
  | c :: t =>
      if c =? DQUOTE then Some ([], t)
      else if c =? BACKSLASH then
        match t with
        | [] => None
        | e :: t1 =>
            if e =? 117 then
              match t1 with
              | h1 :: h2 :: h3 :: h4 :: t5 =>
                  match decode_uXXXX h1 h2 h3 h4 with
                  | None => None
                  | Some uni =>
                      let lone :=
                        match scanstring t5 with
                        | Some (r, rest) => Some (uni :: r, rest)
                        | None => None
                        end in
                      if is_high_surrogate uni then
                        match t5 with
                        | b :: u :: g1 :: g2 :: g3 :: g4 :: t11 =>
                            if (b =? BACKSLASH) && (u =? 117) then
                              match decode_uXXXX g1 g2 g3 g4 with
                              | None => None
                              | Some uni2 =>
                                  if is_low_surrogate uni2 then
                                    match scanstring t11 with
                                    | Some (r, rest) =>
                                        Some (join_surrogates uni uni2 :: r, rest)
                                    | None => None
                                    end
                                  else lone
                              end
                            else lone
                        | _ => lone
                        end
                      else lone
                  end
              | _ => None
              end
            else
              match backslash_escape e with
              | None => None
              | Some x =>
                  match scanstring t1 with
                  | Some (r, rest) => Some (x :: r, rest)
                  | None => None
                  end
              end
        end
      else if c <? 32 then None
      else
        match scanstring t with
        | Some (r, rest) => Some (c :: r, rest)
        | None => None
        end
  end.

(** The longest run of decimal digits at the head of [s]. *)
Fixpoint span_digits (s : str) : str * str :=
  match s with
  | c :: t =>
      if is_digit c then let (d, r) := span_digits t in (c :: d, r)
      else ([], s)
  | [] => ([], [])
  end.

(** The value of a run of decimal digits. *)
Definition int_of_digits (ds : str) : N :=
  fold_left (fun acc c => acc * 10 + (c - 48)) ds 0.

(** The integer part of [NUMBER_RE]: a lone 0, or a digit from 1 to 9
    followed by any number of digits. *)
Definition match_intpart (s : str) : option (str * str) :=
  match s with
  | c :: t =>
      if c =? 48 then Some ([c], t)
      else if is_digit c then let (d, r) := span_digits t in Some (c :: d, r)
      else None
  | [] => None
  end.

(** The optional fraction of [NUMBER_RE]: a dot and at least one digit. *)
Definition match_frac (s : str) : str * str :=
  match s with
  | c :: t =>
      if c =? DOT then
        match span_digits t with
        | ([], _) => ([], s)
        | (d, r) => (c :: d, r)
        end
      else ([], s)
  | [] => ([], [])
  end.

(** The optional exponent of [NUMBER_RE]: e or E, an optional sign and at
    least one digit. *)
Definition match_exp (s : str) : str * str :=
  match s with
  | c :: t =>
      if (c =? 101) || (c =? 69) then
        match t with
        | sg :: t' =>
            if (sg =? MINUS) || (sg =? PLUS) then
              match span_digits t' with
              | ([], _) => ([], s)
              | (d, r) => (c :: sg :: d, r)
              end
            else
              match span_digits t with
              | ([], _) => ([], s)
              | (d, r) => (c :: d, r)
              end
        | [] => ([], s)
        end
      else ([], s)
  | [] => ([], [])
  end.

(** [NUMBER_RE.match]: an [int] when the literal has neither fraction nor
    exponent, a [float] otherwise. *)
Definition match_number (s : str) : option (json * str) :=
  let (neg, s0) :=
    match s with
    | c :: t => if c =? MINUS then (true, t) else (false, s)
    | [] => (false, s)
    end in
  match match_intpart s0 with
  | None => None
  | Some (i, s1) =>
      let (f, s2) := match_frac s1 in
      let (e, s3) := match_exp s2 in
      match f, e with
      | [], [] =>
          let n := Z.of_N (int_of_digits i) in
          Some (JInt (if neg then Z.opp n else n), s3)
      | _, _ =>
          Some (JFloat ((if neg then [MINUS] else []) ++ i ++ f ++ e), s3)
      end
  end.

(** The literals of [scan_once] other than numbers. *)
Definition match_constant (s : str) : option (json * str) :=
  match startswith (py "null") s with
  | Some r => Some (JNone, r)
  | None =>
  match startswith (py "true") s with
  | Some r => Some (JBool true, r)
  | None =>
  match startswith (py "false") s with
  | Some r => Some (JBool false, r)
  | None =>
  match startswith (py "NaN") s with
  | Some r => Some (JFloat (py "NaN"), r)
  | None =>
  match startswith (py "Infinity") s with
  | Some r => Some (JFloat (py "Infinity"), r)
  | None =>
  match startswith (py "-Infinity") s with
  | Some r => Some (JFloat (py "-Infinity"), r)
  | None => None
  end end end end end end.

(** The outcome of one scanning step.  [Exhausted] is the recursion
    budget of the embedding running out, not a Python outcome; it is
    shown below never to happen under [json_loads]. *)
Inductive scan : Type :=
| Scanned (v : json) (rest : str)
| Malformed
| Exhausted.

(** [scan_once], with [JSONObject] and [JSONArray] entered at their loops:
    [JSONObject] just after the opening quote of a key, [JSONArray] at the
    first character of an element. *)
Fixpoint scan_once (fuel : nat) (s : str) : scan :=
  match fuel with
  | O => Exhausted
  | S f =>
      match s with
      | [] => Malformed
      | c :: t =>
          if c =? DQUOTE then
            match scanstring t with
            | Some (v, rest) => Scanned (JStr v) rest
            | None => Malformed
            end
          else if c =? LBRACE then
            match skip_ws t with
            | c1 :: t1 =>
                if c1 =? RBRACE then Scanned (JDict []) t1
                else if c1 =? DQUOTE then JSONObject f t1 []
                else Malformed
            | [] => Malformed
            end
          else if c =? LBRACKET then
            match skip_ws t with
            | c1 :: t1 =>
                if c1 =? RBRACKET then Scanned (JList []) t1
                else JSONArray f (c1 :: t1) []
            | [] => Malformed
            end
          else
            match match_number s with
            | Some (v, rest) => Scanned v rest
            | None =>
                match match_constant s with
                | Some (v, rest) => Scanned v rest
                | None => Malformed
                end
            end
      end
  end

with JSONObject (fuel : nat) (s : str) (pairs : list (str * json)) : scan :=
  match fuel with
  | O => Exhausted
  | S f =>
      match scanstring s with
      | None => Malformed
      | Some (key, s1) =>
          match skip_ws s1 with
          | c :: s2 =>
              if c =? COLON then
                match scan_once f (skip_ws s2) with
                | Scanned value s3 =>
                    let pairs' := pairs ++ [(key, value)] in
                    match skip_ws s3 with
                    | c' :: s4 =>
                        if c' =? RBRACE then Scanned (JDict (dict pairs')) s4
                        else if c' =? COMMA then
                          match skip_ws s4 with
                          | q :: s5 =>
                              if q =? DQUOTE then JSONObject f s5 pairs'
                              else Malformed
                          | [] => Malformed
                          end
                        else Malformed
                    | [] => Malformed
                    end
                | Malformed => Malformed
                | Exhausted => Exhausted
                end
              else Malformed
          | [] => Malformed
          end
      end
  end

with JSONArray (fuel : nat) (s : str) (values : list json) : scan :=
  match fuel with
  | O => Exhausted
  | S f =>
      match scan_once f s with
      | Scanned value s1 =>
          let values' := values ++ [value] in
          match skip_ws s1 with
          | c :: s2 =>
              if c =? RBRACKET then Scanned (JList values') s2
              else if c =? COMMA then JSONArray f (skip_ws s2) values'
              else Malformed
          | [] => Malformed
          end
      | Malformed => Malformed
      | Exhausted => Exhausted
      end
  end.

(** [json.loads(s)]: [None] is [json.JSONDecodeError]. *)
Definition json_loads (s : str) : option json :=
  match scan_once (2 * List.length s + 1) (skip_ws s) with
  | Scanned v rest =>
      match skip_ws rest with
      | [] => Some v
      | _ :: _ => None
      end
  | Malformed => None
  | Exhausted => None
  end.

(** ** re.search

    The fragment of Python's regular expressions the source uses: literal
    characters, [.] under [re.DOTALL], [\s], the greedy and the lazy star
    of one of these, and one capturing group.  Matching backtracks as
    Python's engine does: a greedy star gives characters back one at a
    time, a lazy star takes them one at a time. *)

Inductive cls : Type :=
| Any                (* . under re.DOTALL *)
| Space              (* \s *)
| Lit (c : char).

Definition in_cls (k : cls) (c : char) : bool :=
  match k with
  | Any => true
  | Space => isspace c
  | Lit x => c =? x
  end.

Inductive item : Type :=
| One (k : cls)
| Greedy (k : cls)
| Lazy (k : cls)
| GroupOpen
| GroupClose.

Definition pattern := list item.

(** The text between two positions of one string, each position given by
    the suffix that starts there. *)
Definition between (from to : str) : str :=
  firstn (List.length from - List.length to) from.

(** [run p s opened grp]: match [p] at the head of [s]; [opened] is where
    group 1 was opened, [grp] its text once closed.  The result is what
    follows the match, and the text of group 1. *)
Fixpoint run (p : pattern) (s opened grp : str) : option (str * str) :=
  match p with
  | [] => Some (s, grp)
  | One k :: p' =>
      match s with
      | c :: t => if in_cls k c then run p' t opened grp else None
      | [] => None
      end
  | Greedy k :: p' =>
      (fix star (s : str) : option (str * str) :=
         match s with
         | c :: t =>
             if in_cls k c then
               match star t with
               | Some r => Some r
               | None => run p' s opened grp
               end
             else run p' s opened grp
         | [] => run p' s opened grp
         end) s
  | Lazy k :: p' =>
      (fix star (s : str) : option (str * str) :=
         match run p' s opened grp with
         | Some r => Some r
         | None =>
             match s with
             | c :: t => if in_cls k c then star t else None
             | [] => None
             end
         end) s
  | GroupOpen :: p' => run p' s s grp
  | GroupClose :: p' => run p' s opened (between opened s)
  end.

(** A match object: [group()] and [group(1)].  [group1] is empty for a
    pattern without a group; the source reads it only of patterns that
    have one. *)
Record rematch : Type := { group0 : str; group1 : str }.

(** [re.search(p, s)]: the leftmost position at which [p] matches. *)
Fixpoint search (p : pattern) (s : str) : option rematch :=
  match run p s [] [] with
  | Some (rest, g) => Some {| group0 := between s rest; group1 := g |}
  | None =>
      match s with
      | _ :: t => search p t
      | [] => None
      end
  end.

Definition lits (s : str) : pattern := map (fun c => One (Lit c)) s.

(** The pattern of level 2: an opening brace, anything (greedy), a closing
    brace. *)
Definition brace_span : pattern :=
  [One (Lit LBRACE); Greedy Any; One (Lit RBRACE)].

(** The group of both level-3 patterns: an opening brace, anything (lazy),
    a closing brace. *)
Definition fenced_object : pattern :=
  [Greedy Space; GroupOpen; One (Lit LBRACE); Lazy Any; One (Lit RBRACE);
   GroupClose; Greedy Space].

(** The first pattern of level 3: a fence labelled json. *)
Definition json_fence : pattern :=
  lits (py "```json") ++ fenced_object ++ lits (py "```").

(** The second pattern of level 3: any fence. *)
Definition plain_fence : pattern :=
  lits (py "```") ++ fenced_object ++ lits (py "```").

(** ** Exceptions and results *)

Inductive exn : Type :=
| ValueError (msg : str)        (* raised by parse_json_response *)
| ValidationError               (* pydantic.ValidationError *)
| TypeError                     (* unpacking a value that is no mapping *)
| OutputParserException         (* langchain's JsonOutputParser *)
| ClientError (what : str).     (* anything the model client raises *)

Inductive result (A : Type) : Type :=
| Return (a : A)
| Raise (e : exn).

Arguments Return {A} a.
Arguments Raise {A} e.

(** ** parse_json_response *)

(** Level 1: [json.loads(text.strip())]. *)
Definition level1 (text : str) : option json := json_loads (strip text).

(** Level 2: the greedy brace span, stripped and parsed. *)
Definition level2 (text : str) : option json :=
  match search brace_span text with
  | Some m => json_loads (strip (group0 m))
  | None => None
  end.

(** Level 3: the loop over the fence patterns; a pattern that does not
    match, or whose group does not parse, gives way to the next. *)
Fixpoint level3 (patterns : list pattern) (text : str) : option json :=
  match patterns with
  | [] => None
  | p :: rest =>
      match search p text with
      | Some m =>
          match json_loads (strip (group1 m)) with
          | Some j => Some j
          | None => level3 rest text
          end
      | None => level3 rest text
      end
  end.

Definition fence_patterns : list pattern := [json_fence; plain_fence].

(** The message of level 4. *)
Definition unable_to_parse (text : str) : str :=
  py "Unable to parse JSON from LLM response: " ++ firstn 200 text ++ py "...".

Definition parse_json_response (text : str) : result json :=
  match level1 text with
  | Some j => Return j
  | None =>
      match level2 text with
      | Some j => Return j
      | None =>
          match level3 fence_patterns text with
          | Some j => Return j
          | None => Raise (ValueError (unable_to_parse text))
          end
      end
  end.

(** ** CVExtractedFields

    The pydantic model: three required fields, a list of [int] and two
    lists of [str]. *)

Record CVExtractedFields : Type := {
  years_of_employment : list Z;
  skills : list str;
  languages : list str
}.

(** Every element validated, or none. *)
Fixpoint validate_each {A : Type} (f : json -> option A) (l : list json)
  : option (list A) :=
  match l with
  | [] => Some []
  | x :: l' =>
      match f x, validate_each f l' with
      | Some a, Some r => Some (a :: r)
      | _, _ => None
      end
  end.

(** A field annotated [List[T]]: present, a list, every element a [T]. *)
Definition validate_list {A : Type} (f : json -> option A) (field : option json)
  : option (list A) :=
  match field with
  | Some (JList l) => validate_each f l
  | _ => None
  end.

(** An element annotated [str]: pydantic accepts a [str] and nothing else
    JSON can hold. *)
Definition validate_str (j : json) : option str :=
  match j with
  | JStr s => Some s
  | _ => None
  end.

Section Extraction.

(** pydantic validates in lax mode: an element annotated [int] may also
    be a [bool], a [float] or a [str] that denotes an integer.  Which
    floats and which strings do is the library's business and is taken
    as given. *)
Variable float_as_int : str -> option Z.
Variable str_as_int : str -> option Z.

Definition validate_int (j : json) : option Z :=
  match j with
  | JInt n => Some n
  | JBool b => Some (if b then 1 else 0)%Z
  | JFloat lit => float_as_int lit
  | JStr s => str_as_int s
  | JNone => None
  | JList _ => None
  | JDict _ => None
  end.

(** The constructor applied to an unpacked [obj]: unpacking needs a
    mapping; keys other than the three fields are ignored. *)
Definition new_CVExtractedFields (obj : json) : result CVExtractedFields :=
  match obj with
  | JDict d =>
      match validate_list validate_int (dict_get (py "years_of_employment") d),
            validate_list validate_str (dict_get (py "skills") d),
            validate_list validate_str (dict_get (py "languages") d) with
      | Some y, Some s, Some l =>
          Return {| years_of_employment := y; skills := s; languages := l |}
      | _, _, _ => Raise ValidationError
      end
  | _ => Raise TypeError
  end.

(** The model client.  [structured_invoke] is
    [llm.with_structured_output(CVExtractedFields).invoke], [invoke] is
    [llm.invoke(...).content]; each call may change the client and may
    raise.  [parser_parse] is [JsonOutputParser(...).parse]. *)
Variable Client : Type.
Variable structured_invoke : str -> Client -> result CVExtractedFields * Client.
Variable invoke : str -> Client -> result str * Client.
Variable parser_parse : str -> result json.

Inductive call : Type :=
| StructuredCall (prompt : str)
| PlainCall (prompt : str).

(** The client, and the model calls issued so far. *)
Record state : Type := { client : Client; calls : list call }.

Definition M (A : Type) : Type := state -> result A * state.

Definition ret {A : Type} (a : A) : M A := fun st => (Return a, st).

Definition bind {A B : Type} (m : M A) (k : A -> M B) : M B :=
  fun st =>
    match m st with
    | (Return a, st') => k a st'
    | (Raise e, st') => (Raise e, st')
    end.

(** [try: m  except Exception as e: handler(e)] *)
Definition try_except {A : Type} (m : M A) (handler : exn -> M A) : M A :=
  fun st =>
    match m st with
    | (Return a, st') => (Return a, st')
    | (Raise e, st') => handler e st'
    end.

Definition lift {A : Type} (r : result A) : M A := fun st => (r, st).

Definition llm_structured (prompt : str) : M CVExtractedFields :=
  fun st =>
    let (r, c) := structured_invoke prompt (client st) in
    (r, {| client := c; calls := calls st ++ [StructuredCall prompt] |}).

Definition llm_invoke (prompt : str) : M str :=
  fun st =>
    let (r, c) := invoke prompt (client st) in
    (r, {| client := c; calls := calls st ++ [PlainCall prompt] |}).

Notation "x <- m ;; k" := (bind m (fun x => k))
  (at level 61, m at next level, right associativity).

(** The prompt: a fixed template around the CV text. *)
Definition complete_prompt (text : str) : str :=
  py "user:
# Qwen3 4B CV Extraction Prompt

**Instruction**: Extract structured CV data into strict JSON.

### Years of Employment
- Expand all **explicit numeric date ranges** into full years.
  - Example: `2015-2017 " ++ [RIGHT_ARROW] ++ py " [2015, 2016, 2017]`
  - Example: `2022 " ++ [RIGHT_ARROW] ++ py " [2022]`
- Concat all extracted years of employment into one **flat list**.

### Skills
- Identify the " ++ js "'Skills'" ++ py " section.
- Each skill must be a separate string.

### Languages
- Extract language names only.
- Return as a flat list of strings.

### Output
- Return ONLY valid JSON, no additional text.

CV Text to process:

" ++ text ++ js "

A:
{
  'years_of_employment': [list of years],
  'skills': [list of skills],
  'languages': [list of languages]
}".

(** The three strategies, each one model call. *)
Definition structured_output (prompt : str) : M CVExtractedFields :=
  result <- llm_structured prompt ;;
  ret result.

Definition parser_fallback (prompt : str) : M CVExtractedFields :=
  response <- llm_invoke prompt ;;
  result <- lift (parser_parse response) ;;
  validated_result <- lift (new_CVExtractedFields result) ;;
  ret validated_result.

(** What the manual strategy does with the response: the four levels,
    then the schema. *)
Definition normalize (content : str) : result CVExtractedFields :=
  match parse_json_response content with
  | Return parsed_json => new_CVExtractedFields parsed_json
  | Raise e => Raise e
  end.

Definition manual_parsing (prompt : str) : M CVExtractedFields :=
  response <- llm_invoke prompt ;;
  validated_result <- lift (normalize response) ;;
  ret validated_result.

Definition extract_structured_cv_data (text : str) : M CVExtractedFields :=
  let prompt := complete_prompt text in
  try_except (structured_output prompt) (fun e =>
    try_except (parser_fallback prompt) (fun fallback_error =>
      manual_parsing prompt)).

End Extraction.

Arguments client {Client} s.
Arguments calls {Client} s.

(** ** An instance of the surroundings

    The plain decimal fragment of the lax conversions, a scripted model
    client and a parser that reads what [json.loads] reads: enough to run
    the pipeline on concrete responses. *)

(** A string of ASCII digits with an optional minus sign. *)
Definition plain_str_as_int (s : str) : option Z :=
  let (neg, ds) :=
    match s with
    | c :: t => if c =? MINUS then (true, t) else (false, s)
    | [] => (false, s)
    end in
  match ds with
  | [] => None
  | _ :: _ =>
      if forallb is_digit ds then
        let n := Z.of_N (int_of_digits ds) in
        Some (if neg then Z.opp n else n)
      else None
  end.

(** A float literal whose fraction is all zeros and that has no exponent. *)
Definition plain_float_as_int (lit : str) : option Z :=
  match match_number lit with
  | Some (JFloat _, []) =>
      let (neg, s0) :=
        match lit with
        | c :: t => if c =? MINUS then (true, t) else (false, lit)
        | [] => (false, lit)
        end in
      match match_intpart s0 with
      | Some (i, DOTc :: frac) =>
          if (DOTc =? DOT) && forallb (fun c => c =? 48) frac then
            let n := Z.of_N (int_of_digits i) in
            Some (if neg then Z.opp n else n)
          else None
      | _ => None
      end
  | _ => None
  end.

(** A client that answers from a script, one entry per call; a call past
    the end of the script is refused. *)
Inductive reply : Type :=
| Fields (r : CVExtractedFields)
| Content (text : str)
| Fails (what : str).

Definition scripted_structured (prompt : str) (script : list reply)
  : result CVExtractedFields * list reply :=
  match script with
  | Fields r :: rest => (Return r, rest)
  | Content _ :: rest => (Raise OutputParserException, rest)
  | Fails what :: rest => (Raise (ClientError what), rest)
  | [] => (Raise (ClientError (py "connection refused")), [])
  end.

Definition scripted_invoke (prompt : str) (script : list reply)
  : result str * list reply :=
  match script with
  | Content text :: rest => (Return text, rest)
  | Fields _ :: rest => (Raise (ClientError (py "no content")), rest)
  | Fails what :: rest => (Raise (ClientError what), rest)
  | [] => (Raise (ClientError (py "connection refused")), [])
  end.

Definition loads_parser (text : str) : result json :=
  match json_loads (strip text) with
  | Some j => Return j
  | None => Raise OutputParserException
  end.

(** [extract_structured_cv_data] over the instance, from a fresh state. *)
Definition scripted_extract (text : str) (script : list reply)
  : result CVExtractedFields * state (list reply) :=
  extract_structured_cv_data plain_float_as_int plain_str_as_int
    (list reply) scripted_structured scripted_invoke loads_parser
    text {| client := script; calls := [] |}.

Definition plain_new_CVExtractedFields : json -> result CVExtractedFields :=
  new_CVExtractedFields plain_float_as_int plain_str_as_int.

Definition plain_normalize : str -> result CVExtractedFields :=
  normalize plain_float_as_int plain_str_as_int.

(** ** The words of the specification *)

(** What follows the first occurrence of [c], that occurrence included. *)
Fixpoint from_first (c : char) (s : str) : option str :=
  match s with
  | [] => None
  | x :: t => if x =? c then Some s else from_first c t
  end.

(** What precedes the last occurrence of [c], that occurrence included. *)
Fixpoint through_last (c : char) (s : str) : option str :=
  match s with
  | [] => None
  | x :: t =>
      match through_last c t with
      | Some u => Some (x :: u)
      | None => if x =? c then Some [x] else None
      end
  end.

(** The span of level 2 as the specification words it: from the first
    opening brace through the last closing brace after it. *)
Definition greedy_span (text : str) : option str :=
  match from_first LBRACE text with
  | Some (b :: t) =>
      match through_last RBRACE t with
      | Some u => Some (b :: u)
      | None => None
      end
  | _ => None
  end.

(** The exception types the specification calls low-level: those of the
    schema validation, of the output parser and of the model client, as
    opposed to the failure the pipeline itself declares. *)
Definition low_level (e : exn) : bool :=
  match e with
  | ValueError _ => false
  | ValidationError => true
  | TypeError => true
  | OutputParserException => true
  | ClientError _ => true
  end.

Definition is_int (j : json) : bool :=
  match j with
  | JInt _ => true
  | _ => false
  end.

Definition is_nonempty_string (j : json) : bool :=
  match j with
  | JStr (_ :: _) => true
  | _ => false
  end.

(** The strict reading of the schema: the three fields present, every
    year an integer, every skill and language a non-empty string. *)
Definition strictly_typed (obj : json) : bool :=
  match obj with
  | JDict d =>
      match dict_get (py "years_of_employment") d,
            dict_get (py "skills") d,
            dict_get (py "languages") d with
      | Some (JList ys), Some (JList ss), Some (JList ls) =>
          forallb is_int ys && forallb is_nonempty_string ss
          && forallb is_nonempty_string ls
      | _, _, _ => false
      end
  | _ => false
  end.

(** *** Serialization

    The repository has no serializer of its own for a record.  The one
    below writes the JSON object of the specification's output surface
    the way [json.dumps] does when the web framework's [JSONResponse]
    calls it on [model_dump()]: compact separators, characters outside
    ASCII written as they are. *)

Definition hexdigit (n : N) : char := if n <? 10 then 48 + n else 87 + n.

(** [ESCAPE_DCT] *)
Definition encode_char (c : char) : str :=
  if c =? 34 then [BACKSLASH; 34]
  else if c =? 92 then [BACKSLASH; 92]
  else if c =? 10 then [BACKSLASH; 110]
  else if c =? 13 then [BACKSLASH; 114]
  else if c =? 9 then [BACKSLASH; 116]
  else if c =? 12 then [BACKSLASH; 102]
  else if c =? 8 then [BACKSLASH; 98]
  else if c <? 32 then
    [BACKSLASH; 117; 48; 48; hexdigit (c / 16); hexdigit (c mod 16)]
  else [c].

Definition encode_chars (s : str) : str := flat_map encode_char s.

Definition encode_str (s : str) : str := DQUOTE :: encode_chars s ++ [DQUOTE].

Fixpoint chars_of_uint (d : Decimal.uint) : str :=
  match d with
  | Decimal.Nil => []
  | Decimal.D0 d' => 48 :: chars_of_uint d'
  | Decimal.D1 d' => 49 :: chars_of_uint d'
  | Decimal.D2 d' => 50 :: chars_of_uint d'
  | Decimal.D3 d' => 51 :: chars_of_uint d'
  | Decimal.D4 d' => 52 :: chars_of_uint d'
  | Decimal.D5 d' => 53 :: chars_of_uint d'
  | Decimal.D6 d' => 54 :: chars_of_uint d'
  | Decimal.D7 d' => 55 :: chars_of_uint d'
  | Decimal.D8 d' => 56 :: chars_of_uint d'
  | Decimal.D9 d' => 57 :: chars_of_uint d'
  end.

(** [repr] of a non-negative [int]. *)
Definition repr_N (n : N) : str := chars_of_uint (N.to_uint n).

(** [repr] of an [int]. *)
Definition repr_int (z : Z) : str :=
  match z with
  | Z0 => repr_N 0
  | Zpos p => repr_N (Npos p)
  | Zneg p => MINUS :: repr_N (Npos p)
  end.

(** [sep.join(items)] *)
Fixpoint join (sep : str) (items : list str) : str :=
  match items with
  | [] => []
  | x :: rest =>
      match rest with
      | [] => x
      | _ :: _ => x ++ sep ++ join sep rest
      end
  end.

Definition dumps_list (items : list str) : str :=
  LBRACKET :: join [COMMA] items ++ [RBRACKET].

(** [model_dump()] *)
Definition model_dump (r : CVExtractedFields) : json :=
  JDict [(py "years_of_employment", JList (map JInt (years_of_employment r)));
         (py "skills", JList (map JStr (skills r)));
         (py "languages", JList (map JStr (languages r)))].

(** Modelled from the spec: the JSON serialization of a record, an object
    with the keys [years_of_employment] (array of integers), [skills] and
    [languages] (arrays of strings); no function of the source writes
    it. *)
Definition serialize (r : CVExtractedFields) : str :=
  js "{'years_of_employment':"
  ++ dumps_list (map repr_int (years_of_employment r))
  ++ js ",'skills':" ++ dumps_list (map encode_str (skills r))
  ++ js ",'languages':" ++ dumps_list (map encode_str (languages r))
  ++ [RBRACE].

(** A character that ends an element of a list: a comma or a closing
    bracket. *)
Definition ends_item (c : char) : Prop := c = COMMA \/ c = RBRACKET.

(** A pattern without group markers. *)
Definition no_group (p : pattern) : bool :=
  forallb (fun i => match i with GroupOpen | GroupClose => false | _ => true end)
          p.

(** [c not in s] *)
Definition absent (c : char) (s : str) : bool :=
  forallb (fun x => negb (x =? c)) s.

(** The examples of the specification. *)
Definition embedded_example : str :=
  js "Here is the result: {'years_of_employment':[2020],'skills':['Go'],'languages':['English']} Thanks.".

Definition wrong_type_example : str :=
  js "{'years_of_employment':'2020','skills':[],'languages':[]}".

Definition refusal_example : str := py "I cannot help with that.".

(** A labelled fence whose content does not parse, then a generic fence
    whose content does. *)
Definition two_fences_example : str :=
  js "```json {bad} ``` ``` {'a':1} ```".

(** A labelled fence and a generic fence, both with content that
    parses. *)
Definition both_fences_example : str :=
  js "```json {'a':1} ``` and ``` {'b':2} ```".

(** ** get_llm

    The keyword arguments [get_llm] hands to [ChatOpenAI].  A [float] is
    carried as its literal, like the floats read from JSON. *)

Section GetLlm.

(** [os.getenv(name)]: [None] when the variable is not set. *)
Variable getenv : str -> option str.

(** The constructor [ChatOpenAI], applied to the unpacked [params]. *)
Variable Llm : Type.
Variable ChatOpenAI : list (str * json) -> Llm.

(** The [params] dict at the point [ChatOpenAI] is called. *)
Definition get_llm_params (model : str) (temperature : str) (max_tokens : Z)
    (seed : Z) : list (str * json) :=
  let ollama_base_url :=
    match getenv (py "OLLAMA_BASE_URL") with
    | Some url => url
    | None => py "http://localhost:11434/v1"
    end in
  let params :=
    dict [(py "base_url", JStr ollama_base_url);
          (py "api_key", JStr (py "ollama"));
          (py "model", JStr model);
          (py "temperature", JFloat temperature);
          (py "seed", JInt seed)] in
  if (max_tokens =? 0)%Z then params
  else dict_set (py "max_tokens") (JInt max_tokens) params.

Definition get_llm (model : str) (temperature : str) (max_tokens : Z)
    (seed : Z) : Llm :=
  ChatOpenAI (get_llm_params model temperature max_tokens seed).

End GetLlm.

(** ** The upload path

    [utils/file_reader.py], [utils/pdf_extractor.py] and
    [routes/cvs.py]. *)

Definition bytes := list Byte.byte.

(** What the upload path raises: the [HTTPException] of the source, or
    whatever one of its libraries raises. *)
Inductive web_exn : Type :=
| HTTPException (status_code : Z) (detail : str)
| LibraryError (what : str).

Inductive outcome (A : Type) : Type :=
| Returns (a : A)
| Raises (e : web_exn).

Arguments Returns {A} a.
Arguments Raises {A} e.

(** [s.endswith(suffix)] *)
Definition endswith (suffix s : str) : bool :=
  match startswith (rev suffix) (rev s) with
  | Some _ => true
  | None => false
  end.

(** [Union[str, bytes]] *)
Inductive pdf_source : Type :=
| PdfPath (path : str)
| PdfBytes (content : bytes).

(** The content of the [JSONResponse] of [upload_pdf]. *)
Record upload_response : Type := {
  message : str;
  filename : str;
  size : nat;
  extracted_text : str
}.

Section Upload.

(** The libraries: the upload being read, [str.lower], libmagic's
    [magic.from_buffer(content, mime=True)] and PyMuPDF ([fitz]).  Each
    call into the outside world may change it and may raise. *)
Variable World : Type.
Variable Doc : Type.
Variable Page : Type.
Variable TextDict : Type.
Variable lower : str -> str.
Variable magic_from_buffer : bytes -> outcome str.
Variable fitz_open_stream : pdf_source -> World -> outcome Doc * World.
Variable fitz_open_file : str -> World -> outcome Doc * World.
Variable fitz_load_page : Doc -> Z -> World -> outcome Page * World.
Variable fitz_get_text : Page -> World -> outcome str * World.
Variable fitz_get_text_dict : Page -> World -> outcome TextDict * World.
Variable fitz_close : Doc -> World -> outcome unit * World.

(** An [UploadFile]: its name, taken to be a [str], and its [read()]. *)
Record UploadFile : Type := {
  upload_filename : str;
  upload_read : World -> outcome bytes * World
}.

(** The calls made into the outside world, in order. *)
Inductive event : Type :=
| FileRead
| OpenStream (source : pdf_source)
| OpenFile (path : str)
| LoadPage (doc : Doc) (page_number : Z)
| GetText (page : Page)
| GetTextDict (page : Page)
| Close (doc : Doc).

Record wstate : Type := { world : World; events : list event }.

Definition IO (A : Type) : Type := wstate -> outcome A * wstate.

Definition io_ret {A : Type} (a : A) : IO A := fun st => (Returns a, st).

Definition io_raise {A : Type} (e : web_exn) : IO A := fun st => (Raises e, st).

Definition io_bind {A B : Type} (m : IO A) (k : A -> IO B) : IO B :=
  fun st =>
    match m st with
    | (Returns a, st') => k a st'
    | (Raises e, st') => (Raises e, st')
    end.

(** One call into the outside world, logged. *)
Definition io_call {A : Type} (ev : event) (f : World -> outcome A * World)
  : IO A :=
  fun st =>
    let (r, w) := f (world st) in
    (r, {| world := w; events := events st ++ [ev] |}).

Definition io_pure {A : Type} (r : outcome A) : IO A := fun st => (r, st).

Notation "x <~ m ;; k" := (io_bind m (fun x => k))
  (at level 61, m at next level, right associativity).

Definition read_and_validate_file (file : UploadFile) : IO bytes :=
  if negb (endswith (py ".pdf") (lower (upload_filename file))) then
    io_raise (HTTPException 400 (py "Only PDF files are allowed"))
  else
    content <~ io_call FileRead (upload_read file) ;;
    mime_type <~ io_pure (magic_from_buffer content) ;;
    if negb (str_eqb mime_type (py "application/pdf")) then
      io_raise (HTTPException 400 (py "File is not a valid PDF"))
    else io_ret content.

Definition extract_text_from_pdf (source : pdf_source) (page_number : Z)
  : IO str :=
  let stream :=
    match source with
    | PdfBytes _ => source
    | PdfPath _ => source
    end in
  doc <~ io_call (OpenStream stream) (fitz_open_stream stream) ;;
  page <~ io_call (LoadPage doc page_number) (fitz_load_page doc page_number) ;;
  text <~ io_call (GetText page) (fitz_get_text page) ;;
  _ <~ io_call (Close doc) (fitz_close doc) ;;
  io_ret text.

Definition extract_text_with_details (pdf_path : str) (page_number : Z)
  : IO TextDict :=
  doc <~ io_call (OpenFile pdf_path) (fitz_open_file pdf_path) ;;
  page <~ io_call (LoadPage doc page_number) (fitz_load_page doc page_number) ;;
  text_dict <~ io_call (GetTextDict page) (fitz_get_text_dict page) ;;
  _ <~ io_call (Close doc) (fitz_close doc) ;;
  io_ret text_dict.

(** [upload_pdf]: the first page is the default [page_number=0]. *)
Definition upload_pdf (file : UploadFile) : IO upload_response :=
  content <~ read_and_validate_file file ;;
  text <~ extract_text_from_pdf (PdfBytes content) 0 ;;
  io_ret {| message := py "PDF uploaded successfully";
            filename := upload_filename file;
            size := List.length content;
            extracted_text := text |}.

End Upload.

Arguments world {World Doc Page} w.
Arguments events {World Doc Page} w.
Arguments upload_filename {World} u.
Arguments upload_read {World} u.
Arguments FileRead {Doc Page}.
Arguments OpenStream {Doc Page} source.
Arguments OpenFile {Doc Page} path.
Arguments LoadPage {Doc Page} doc page_number.
Arguments GetText {Doc Page} page.
Arguments GetTextDict {Doc Page} page.
Arguments Close {Doc Page} doc.

(** *** An instance of the libraries

    [str.lower] on ASCII, a sniffer that knows the PDF signature, and a
    document library whose documents have one page of fixed text. *)

Definition ascii_lower (s : str) : str :=
  map (fun c => if (65 <=? c) && (c <=? 90) then c + 32 else c) s.

Definition sniff_signature (content : bytes) : outcome str :=
  match content with
  | Byte.x25 :: Byte.x50 :: Byte.x44 :: Byte.x46 :: _ =>
      Returns (py "application/pdf")
  | _ => Returns (py "application/octet-stream")
  end.

Definition one_page_open (source : pdf_source) (w : unit) : outcome unit * unit :=
  match source with
  | PdfBytes _ => (Returns tt, w)
  | PdfPath _ => (Raises (LibraryError (py "bad stream")), w)
  end.

Definition one_page_load (doc : unit) (page_number : Z) (w : unit)
  : outcome unit * unit :=
  if (page_number =? 0)%Z then (Returns tt, w)
  else (Raises (LibraryError (py "page not in document")), w).

Definition upload_of (name : str) (content : bytes) : UploadFile unit :=
  {| upload_filename := name;
     upload_read := fun w => (Returns content, w) |}.

Definition pdf_bytes : bytes :=
  [Byte.x25; Byte.x50; Byte.x44; Byte.x46; Byte.x2d; Byte.x31].

Definition one_page_get_text (page : unit) (w : unit) : outcome str * unit :=
  (Returns (py "Jane Doe"), w).

Definition one_page_close (doc : unit) (w : unit) : outcome unit * unit :=
  (Returns tt, w).

Definition one_page_validate : UploadFile unit -> IO unit unit unit bytes :=
  read_and_validate_file unit unit unit ascii_lower sniff_signature.

Definition one_page_text : pdf_source -> Z -> IO unit unit unit str :=
  extract_text_from_pdf unit unit unit one_page_open one_page_load
    one_page_get_text one_page_close.

Definition one_page_upload : UploadFile unit -> IO unit unit unit upload_response :=
  upload_pdf unit unit unit ascii_lower sniff_signature one_page_open
    one_page_load one_page_get_text one_page_close.

(** The state before anything was called. *)
Definition fresh : wstate unit unit unit := {| world := tt; events := [] |}.

(** A response cut off before its closing brace. *)
Definition truncated_example : str := js "{'years_of_employment': [2020".

(** [r] is what is left of [s] after a prefix. *)
Definition suffix (r s : str) : Prop := exists p, s = p ++ r.

(** * Properties *)

(** ** The schema *)

Lemma str_eqb_eq (a b : str) : str_eqb a b = true <-> a = b.
Proof.
  revert b; induction a as [|x a IH]; intros [|y b]; simpl;
    try (split; [discriminate | congruence]); try tauto.
  rewrite andb_true_iff, N.eqb_eq, IH.
  split; [intros [-> ->]; reflexivity | intros H; inversion H; auto].
Qed.

Lemma validate_each_Forall2 {A : Type} (f : json -> option A) l r :
  validate_each f l = Some r <-> Forall2 (fun j a => f j = Some a) l r.
Proof.
  revert r; induction l as [|x l IH]; intros r; simpl.
  - split; [intros [= <-]; constructor | intros H; inversion H; reflexivity].
  - destruct (f x) as [a|] eqn:Hx.
    + destruct (validate_each f l) as [r'|] eqn:Hl.
      * split.
        -- intros [= <-]. constructor; [assumption | apply IH; reflexivity].
        -- intros H; inversion H as [|? b ? l' Hb Hr]; subst.
           rewrite Hb in Hx; injection Hx as ->.
           apply IH in Hr. injection Hr as ->. reflexivity.
      * split; [discriminate|].
        intros H; inversion H as [|? b ? l' Hb Hr]; subst.
        apply IH in Hr; discriminate.
    + split; [discriminate|].
      intros H; inversion H as [|? b ? l' Hb Hr]; subst. congruence.
Qed.

Lemma validate_each_rejects {A : Type} (f : json -> option A) l x :
  In x l -> f x = None -> validate_each f l = None.
Proof.
  induction l as [|y l IH]; simpl; [tauto|].
  intros [-> | Hin] Hx.
  - rewrite Hx; reflexivity.
  - rewrite (IH Hin Hx). destruct (f y); reflexivity.
Qed.

Lemma validate_str_map (l : list str) :
  validate_each validate_str (map JStr l) = Some l.
Proof. induction l as [|x l IH]; simpl; [|rewrite IH]; reflexivity. Qed.

Lemma validate_str_inv l r :
  validate_each validate_str l = Some r -> l = map JStr r.
Proof.
  rewrite validate_each_Forall2. induction 1 as [|j a l r Hj _ IH]; simpl.
  - reflexivity.
  - destruct j; try discriminate. injection Hj as ->. now rewrite IH.
Qed.

(** ** The decoder's recursion budget

    Every step of the decoder consumes input, and the budget [json_loads]
    starts with is never used up: [None] is a decoding error and nothing
    else. *)

Ltac break_match :=
  match goal with
  | H : context [match ?x with _ => _ end] |- _ => destruct x eqn:?
  end.

Lemma skip_ws_length (s : str) : (List.length (skip_ws s) <= List.length s)%nat.
Proof.
  induction s as [|c t IH]; simpl; [lia|]. destruct (is_ws c); simpl; lia.
Qed.

Lemma span_digits_length (s d r : str) :
  span_digits s = (d, r) -> (List.length r <= List.length s)%nat.
Proof.
  revert d r. induction s as [|c t IH]; simpl; intros d r.
  - intros [= <- <-]; simpl; lia.
  - destruct (is_digit c).
    + destruct (span_digits t) as [d' r'] eqn:E. intros [= <- <-].
      specialize (IH _ _ eq_refl). lia.
    + intros [= <- <-]; simpl; lia.
Qed.

Lemma startswith_length (p s r : str) :
  startswith p s = Some r -> (List.length r + List.length p = List.length s)%nat.
Proof.
  revert s. induction p as [|x p IH]; simpl; intros s.
  - intros [= <-]; lia.
  - destruct s as [|y s]; [discriminate|]. destruct (x =? y); [|discriminate].
    intros H. specialize (IH _ H). simpl. lia.
Qed.

Lemma match_frac_length (s f r : str) :
  match_frac s = (f, r) -> (List.length r <= List.length s)%nat.
Proof.
  unfold match_frac. intros H.
  repeat break_match; injection H as <- <-; subst; simpl;
    try lia;
    match goal with
    | E : span_digits _ = _ |- _ => apply span_digits_length in E; simpl in *; lia
    end.
Qed.

Lemma match_exp_length (s e r : str) :
  match_exp s = (e, r) -> (List.length r <= List.length s)%nat.
Proof.
  unfold match_exp. intros H.
  repeat break_match; injection H as <- <-; subst; simpl;
    try lia;
    match goal with
    | E : span_digits _ = _ |- _ => apply span_digits_length in E; simpl in *; lia
    end.
Qed.

Lemma match_intpart_length (s i r : str) :
  match_intpart s = Some (i, r) -> (List.length r < List.length s)%nat.
Proof.
  unfold match_intpart. intros H.
  repeat break_match; try discriminate; injection H as <- <-; subst; simpl;
    try lia;
    match goal with
    | E : span_digits _ = _ |- _ => apply span_digits_length in E; simpl in *; lia
    end.
Qed.

Lemma match_number_length (s r : str) (v : json) :
  match_number s = Some (v, r) -> (List.length r < List.length s)%nat.
Proof.
  unfold match_number. intros H.
  destruct (match s with
            | [] => (false, s)
            | c :: t => if c =? MINUS then (true, t) else (false, s)
            end) as [neg s0] eqn:E0.
  assert (L0 : (List.length s0 <= List.length s)%nat).
  { destruct s as [|c t]; [injection E0 as <- <-; lia|].
    destruct (c =? MINUS); injection E0 as <- <-; simpl; lia. }
  destruct (match_intpart s0) as [[i s1]|] eqn:E1; [|discriminate].
  apply match_intpart_length in E1.
  destruct (match_frac s1) as [f s2] eqn:E2. apply match_frac_length in E2.
  destruct (match_exp s2) as [e s3] eqn:E3. apply match_exp_length in E3.
  destruct f, e; injection H as <- <-; lia.
Qed.

Lemma match_constant_length (s r : str) (v : json) :
  match_constant s = Some (v, r) -> (List.length r < List.length s)%nat.
Proof.
  unfold match_constant. intros H.
  repeat break_match; try discriminate; injection H as <- <-;
    match goal with
    | E : startswith _ _ = Some _ |- _ =>
        apply startswith_length in E; simpl in E; lia
    end.
Qed.

Lemma scanstring_length (s v r : str) :
  scanstring s = Some (v, r) -> (List.length r < List.length s)%nat.
Proof.
  intros H0.
  enough (G : forall n s v r, (List.length s <= n)%nat ->
                scanstring s = Some (v, r) ->
                (List.length r < List.length s)%nat)
    by (apply (G (List.length s) s v r (le_n _) H0)).
  clear. induction n as [|n IH]; intros s v r Hle H.
  - destruct s; [discriminate | simpl in Hle; lia].
  - destruct s as [|c t]; [discriminate|]. simpl in Hle.
    assert (R : forall t' v' r', (List.length t' <= n)%nat ->
                  scanstring t' = Some (v', r') ->
                  (List.length r' < S (List.length t'))%nat).
    { intros t' v' r' Ht E. specialize (IH _ _ _ Ht E). lia. }
    cbn [scanstring] in H.
    repeat break_match; try discriminate; subst;
      injection H as <- <-; cbn [List.length] in *;
      try lia;
      match goal with
      | E : scanstring ?t' = Some (_, ?r') |- _ =>
          apply R in E; cbn [List.length] in *; lia
      end.
Qed.

Lemma scan_consumes (f : nat) :
  (forall s v r, scan_once f s = Scanned v r ->
                 (List.length r < List.length s)%nat)
  /\ (forall s p v r, JSONObject f s p = Scanned v r ->
                      (List.length r < List.length s)%nat)
  /\ (forall s a v r, JSONArray f s a = Scanned v r ->
                      (List.length r < List.length s)%nat).
Proof.
  induction f as [|f (IHo & IHp & IHa)];
    [repeat split; intros; discriminate|].
  split; [|split].
  - intros s v r H. destruct s as [|c t]; [discriminate|].
    cbn [scan_once] in H.
    destruct (c =? DQUOTE).
    { destruct (scanstring t) as [[v' r']|] eqn:E; [|discriminate].
      injection H as <- <-. apply scanstring_length in E. simpl; lia. }
    destruct (c =? LBRACE).
    { pose proof (skip_ws_length t) as L.
      destruct (skip_ws t) as [|c1 t1]; [discriminate|].
      destruct (c1 =? RBRACE); [injection H as <- <-; simpl in *; lia|].
      destruct (c1 =? DQUOTE); [|discriminate].
      apply IHp in H. simpl in *; lia. }
    destruct (c =? LBRACKET).
    { pose proof (skip_ws_length t) as L.
      destruct (skip_ws t) as [|c1 t1]; [discriminate|].
      destruct (c1 =? RBRACKET); [injection H as <- <-; simpl in *; lia|].
      apply IHa in H. simpl in *; lia. }
    destruct (match_number (c :: t)) as [[v' r']|] eqn:E.
    { injection H as <- <-. apply match_number_length in E. exact E. }
    destruct (match_constant (c :: t)) as [[v' r']|] eqn:E'; [|discriminate].
    injection H as <- <-. apply match_constant_length in E'. exact E'.
  - intros s p v r H. cbn [JSONObject] in H.
    destruct (scanstring s) as [[key s1]|] eqn:E; [|discriminate].
    apply scanstring_length in E.
    pose proof (skip_ws_length s1) as L1.
    destruct (skip_ws s1) as [|c s2]; [discriminate|].
    destruct (c =? COLON); [|discriminate].
    pose proof (skip_ws_length s2) as L2.
    destruct (scan_once f (skip_ws s2)) as [value s3| |] eqn:E3;
      try discriminate.
    apply IHo in E3.
    pose proof (skip_ws_length s3) as L3.
    destruct (skip_ws s3) as [|c' s4]; [discriminate|].
    destruct (c' =? RBRACE); [injection H as <- <-; simpl in *; lia|].
    destruct (c' =? COMMA); [|discriminate].
    pose proof (skip_ws_length s4) as L4.
    destruct (skip_ws s4) as [|q s5]; [discriminate|].
    destruct (q =? DQUOTE); [|discriminate].
    apply IHp in H. simpl in *; lia.
  - intros s a v r H. cbn [JSONArray] in H.
    destruct (scan_once f s) as [value s1| |] eqn:E1; try discriminate.
    apply IHo in E1.
    pose proof (skip_ws_length s1) as L1.
    destruct (skip_ws s1) as [|c s2]; [discriminate|].
    destruct (c =? RBRACKET); [injection H as <- <-; simpl in *; lia|].
    destruct (c =? COMMA); [|discriminate].
    pose proof (skip_ws_length s2) as L2.
    apply IHa in H. simpl in *; lia.
Qed.

Lemma scan_budget (f : nat) :
  (forall s, (2 * List.length s + 1 <= f)%nat -> scan_once f s <> Exhausted)
  /\ (forall s p, (2 * List.length s + 1 <= f)%nat ->
                  JSONObject f s p <> Exhausted)
  /\ (forall s a, (2 * List.length s + 2 <= f)%nat ->
                  JSONArray f s a <> Exhausted).
Proof.
  induction f as [|f (IHo & IHp & IHa)];
    [repeat split; intros; lia|].
  split; [|split].
  - intros s Hf. destruct s as [|c t]; [discriminate|].
    cbn [scan_once]. simpl in Hf.
    destruct (c =? DQUOTE); [destruct (scanstring t) as [[? ?]|]; discriminate|].
    destruct (c =? LBRACE).
    { pose proof (skip_ws_length t) as L.
      destruct (skip_ws t) as [|c1 t1]; [discriminate|].
      destruct (c1 =? RBRACE); [discriminate|].
      destruct (c1 =? DQUOTE); [|discriminate].
      apply IHp. simpl in *; lia. }
    destruct (c =? LBRACKET).
    { pose proof (skip_ws_length t) as L.
      destruct (skip_ws t) as [|c1 t1]; [discriminate|].
      destruct (c1 =? RBRACKET); [discriminate|].
      apply IHa. simpl in *; lia. }
    destruct (match_number (c :: t)) as [[? ?]|]; [discriminate|].
    destruct (match_constant (c :: t)) as [[? ?]|]; discriminate.
  - intros s p Hf. cbn [JSONObject].
    destruct (scanstring s) as [[key s1]|] eqn:E; [|discriminate].
    apply scanstring_length in E.
    pose proof (skip_ws_length s1) as L1.
    destruct (skip_ws s1) as [|c s2]; [discriminate|].
    destruct (c =? COLON); [|discriminate].
    pose proof (skip_ws_length s2) as L2.
    destruct (scan_once f (skip_ws s2)) as [value s3| |] eqn:E3;
      [|discriminate|].
    + apply (proj1 (scan_consumes f)) in E3.
      pose proof (skip_ws_length s3) as L3.
      destruct (skip_ws s3) as [|c' s4]; [discriminate|].
      destruct (c' =? RBRACE); [discriminate|].
      destruct (c' =? COMMA); [|discriminate].
      pose proof (skip_ws_length s4) as L4.
      destruct (skip_ws s4) as [|q s5]; [discriminate|].
      destruct (q =? DQUOTE); [|discriminate].
      apply IHp. simpl in *; lia.
    + exfalso. apply (IHo (skip_ws s2)); [simpl in *; lia | exact E3].
  - intros s a Hf. cbn [JSONArray].
    destruct (scan_once f s) as [value s1| |] eqn:E1; [|discriminate|].
    + apply (proj1 (scan_consumes f)) in E1.
      pose proof (skip_ws_length s1) as L1.
      destruct (skip_ws s1) as [|c s2]; [discriminate|].
      destruct (c =? RBRACKET); [discriminate|].
      destruct (c =? COMMA); [|discriminate].
      pose proof (skip_ws_length s2) as L2.
      apply IHa. simpl in *; lia.
    + exfalso. apply (IHo s); [lia | exact E1].
Qed.

(** [json_loads] never runs out of budget. *)
Lemma json_loads_budget (s : str) :
  scan_once (2 * List.length s + 1) (skip_ws s) <> Exhausted.
Proof.
  apply (proj1 (scan_budget _)). pose proof (skip_ws_length s). lia.
Qed.

(** ** The regular expressions *)

(** A pattern that asks for the literal [c] matches nowhere in a text
    without [c]. *)
Lemma run_needs_literal (c : char) (p : pattern) :
  In (One (Lit c)) p ->
  forall s opened grp, ~ In c s -> run p s opened grp = None.
Proof.
  induction p as [|i p IH]; simpl; [tauto|].
  intros [-> | Hin].
  - intros [|x t] opened grp Hs; [reflexivity|]. simpl.
    destruct (N.eqb_spec x c) as [->|_]; [|reflexivity].
    exfalso; apply Hs; left; reflexivity.
  - specialize (IH Hin). destruct i as [k|k|k| |].
    + intros [|x t] opened grp Hs; [reflexivity|].
      destruct (in_cls k x); [|reflexivity].
      apply IH. intros H; apply Hs; right; exact H.
    + intros s opened grp. induction s as [|x t IHt]; intros Hs.
      * apply IH; exact Hs.
      * destruct (in_cls k x).
        -- rewrite IHt by (intros H; apply Hs; right; exact H).
           apply IH; exact Hs.
        -- apply IH; exact Hs.
    + intros s opened grp. induction s as [|x t IHt]; intros Hs.
      * rewrite IH by exact Hs. reflexivity.
      * rewrite IH by exact Hs. destruct (in_cls k x); [|reflexivity].
        apply IHt. intros H; apply Hs; right; exact H.
    + intros s opened grp Hs. apply IH; exact Hs.
    + intros s opened grp Hs. apply IH; exact Hs.
Qed.

Lemma search_needs_literal (c : char) (p : pattern) :
  In (One (Lit c)) p -> forall s, ~ In c s -> search p s = None.
Proof.
  intros Hp s. induction s as [|x t IH]; intros Hs; simpl.
  - rewrite (run_needs_literal c p Hp) by exact Hs. reflexivity.
  - rewrite (run_needs_literal c p Hp) by exact Hs.
    apply IH. intros H; apply Hs; right; exact H.
Qed.

(** Without an opening brace, levels 2 and 3 find nothing to parse. *)
Lemma brace_free_level2 text : ~ In LBRACE text -> level2 text = None.
Proof.
  intros H. unfold level2.
  rewrite (search_needs_literal LBRACE) by (simpl; auto). reflexivity.
Qed.

Lemma brace_free_level3 text :
  ~ In LBRACE text -> level3 fence_patterns text = None.
Proof.
  intros H. unfold level3, fence_patterns.
  rewrite !(search_needs_literal LBRACE) by (simpl; auto 20). reflexivity.
Qed.

Lemma through_last_prefix c s u :
  through_last c s = Some u -> exists r, s = u ++ r /\ ~ In c r.
Proof.
  revert u; induction s as [|x t IH]; simpl; intros u; [discriminate|].
  destruct (through_last c t) as [u'|] eqn:E.
  - intros [= <-]. destruct (IH u' eq_refl) as (r & -> & Hr).
    exists r; auto.
  - destruct (N.eqb_spec x c) as [->|_]; [|discriminate].
    intros [= <-]. exists t; split; [reflexivity|].
    clear IH. induction t as [|y t IHt]; simpl in *; [tauto|].
    destruct (through_last c t); [discriminate|].
    destruct (N.eqb_spec y c); [discriminate|].
    intros [?|?]; [congruence|]. apply IHt; auto.
Qed.

Lemma through_last_none c s : through_last c s = None -> ~ In c s.
Proof.
  induction s as [|x t IH]; simpl; [tauto|].
  destruct (through_last c t); [discriminate|].
  destruct (N.eqb_spec x c); [discriminate|].
  intros _ [?|?]; [congruence|]. apply IH; auto.
Qed.

Lemma through_last_fresh c s : ~ In c s -> through_last c s = None.
Proof.
  induction s as [|x t IH]; simpl; intros H; [reflexivity|].
  rewrite IH by auto.
  destruct (N.eqb_spec x c) as [->|_]; [exfalso; auto | reflexivity].
Qed.

Lemma through_last_app c a b :
  ~ In c b -> through_last c (a ++ c :: b) = Some (a ++ [c]).
Proof.
  intros Hb. induction a as [|x a IH]; simpl.
  - rewrite (through_last_fresh c b Hb), N.eqb_refl. reflexivity.
  - rewrite IH. reflexivity.
Qed.

Lemma from_first_app c a b : ~ In c a -> from_first c (a ++ c :: b) = Some (c :: b).
Proof.
  induction a as [|x a IH]; simpl; intros Ha.
  - rewrite N.eqb_refl; reflexivity.
  - destruct (N.eqb_spec x c) as [->|_]; [exfalso; auto|]. apply IH; auto.
Qed.

Lemma between_app (a r : str) : between (a ++ r) r = a.
Proof.
  unfold between. rewrite length_app.
  replace (List.length a + List.length r - List.length r)%nat
    with (List.length a + 0)%nat by lia.
  rewrite firstn_app_2. simpl. apply List.app_nil_r.
Qed.

Lemma skipn_length_app (a r : str) : skipn (List.length a) (a ++ r) = r.
Proof. rewrite skipn_app, skipn_all, Nat.sub_diag. reflexivity. Qed.

(** The greedy star of level 2 runs to the last closing brace. *)
Lemma greedy_to_last_brace s opened grp :
  run [Greedy Any; One (Lit RBRACE)] s opened grp =
  match through_last RBRACE s with
  | Some u => Some (skipn (List.length u) s, grp)
  | None => None
  end.
Proof.
  induction s as [|x t IH]; [reflexivity|].
  simpl in *. rewrite IH. destruct (through_last RBRACE t) as [u|]; [reflexivity|].
  destruct (x =? RBRACE); reflexivity.
Qed.

(** [re.search] with the pattern of level 2 finds the span the
    specification describes. *)
Lemma search_brace_span text :
  option_map group0 (search brace_span text) = greedy_span text.
Proof.
  unfold greedy_span. induction text as [|x t IH]; [reflexivity|].
  change (search brace_span (x :: t)) with
    (match (if x =? LBRACE
            then run [Greedy Any; One (Lit RBRACE)] t [] [] else None) with
     | Some (rest, g) => Some {| group0 := between (x :: t) rest; group1 := g |}
     | None => search brace_span t
     end).
  simpl from_first. destruct (N.eqb_spec x LBRACE) as [->|Hx].
  - rewrite greedy_to_last_brace.
    destruct (through_last RBRACE t) as [u|] eqn:E.
    + destruct (through_last_prefix _ _ _ E) as (r & -> & _).
      rewrite skipn_length_app. cbn [option_map group0].
      change (LBRACE :: u ++ r) with ((LBRACE :: u) ++ r).
      rewrite between_app. reflexivity.
    + rewrite (search_needs_literal RBRACE)
        by (simpl; auto || apply through_last_none; exact E).
      reflexivity.
  - exact IH.
Qed.

(** [strip] leaves alone a text that begins and ends with a character
    that is no space. *)
Lemma strip_fixed (a b : char) (mid : str) :
  isspace a = false -> isspace b = false ->
  strip (a :: mid ++ [b]) = a :: mid ++ [b].
Proof.
  intros Ha Hb. unfold strip, rstrip. simpl lstrip. rewrite Ha.
  change (a :: mid ++ [b]) with ((a :: mid) ++ [b]).
  rewrite rev_unit. simpl lstrip. rewrite Hb.
  simpl. rewrite rev_app_distr, List.rev_involutive. reflexivity.
Qed.

(** ** parse_json_response *)

Lemma from_first_head c s r : from_first c s = Some r -> exists t, r = c :: t.
Proof.
  induction s as [|x t IH]; simpl; [discriminate|].
  destruct (N.eqb_spec x c) as [->|_]; [|exact IH].
  intros [= <-]. exists t; reflexivity.
Qed.

Lemma lstrip_keeps_last (l : str) (a : char) :
  isspace a = false -> exists l', lstrip (l ++ [a]) = l' ++ [a].
Proof.
  intros Ha. induction l as [|x l IH]; simpl.
  - rewrite Ha. exists []; reflexivity.
  - destruct (isspace x); [exact IH|]. exists (x :: l); reflexivity.
Qed.

Lemma strip_keeps_head (a : char) (t : str) :
  isspace a = false -> exists t', strip (a :: t) = a :: t'.
Proof.
  intros Ha. unfold strip, rstrip. simpl lstrip. rewrite Ha. simpl rev.
  destruct (lstrip_keeps_last (rev t) a Ha) as [l' ->].
  rewrite rev_unit. exists (rev l'); reflexivity.
Qed.

(** The object loop returns a [dict] when it returns. *)
Lemma JSONObject_dict fuel s pairs v rest :
  JSONObject fuel s pairs = Scanned v rest -> exists d, v = JDict d.
Proof.
  revert s pairs. induction fuel as [|f IH]; intros s pairs; simpl; [discriminate|].
  destruct (scanstring s) as [[key s1]|]; [|discriminate].
  destruct (skip_ws s1) as [|c s2]; [discriminate|].
  destruct (c =? COLON); [|discriminate].
  destruct (scan_once f (skip_ws s2)) as [value s3| |]; try discriminate.
  destruct (skip_ws s3) as [|c' s4]; [discriminate|].
  destruct (c' =? RBRACE); [intros [= <- _]; eauto|].
  destruct (c' =? COMMA); [|discriminate].
  destruct (skip_ws s4) as [|q s5]; [discriminate|].
  destruct (q =? DQUOTE); [apply IH | discriminate].
Qed.

(** A text that opens with a brace reads as a [dict] or not at all. *)
Lemma json_loads_brace (t : str) (j : json) :
  json_loads (LBRACE :: t) = Some j -> exists d, j = JDict d.
Proof.
  unfold json_loads. change (skip_ws (LBRACE :: t)) with (LBRACE :: t).
  destruct (2 * List.length (LBRACE :: t) + 1)%nat as [|f]; [discriminate|].
  cbn [scan_once]. change (LBRACE =? DQUOTE) with false.
  change (LBRACE =? LBRACE) with true. cbv iota.
  destruct (skip_ws t) as [|c1 t1]; [discriminate|].
  destruct (c1 =? RBRACE).
  - destruct (skip_ws t1); [intros [= <-]; eauto | discriminate].
  - destruct (c1 =? DQUOTE); [|discriminate].
    destruct (JSONObject f t1 []) as [v rest| |] eqn:E; try discriminate.
    destruct (skip_ws rest); [|discriminate].
    intros [= <-]. eapply JSONObject_dict; exact E.
Qed.

(** Level 2 hands on a [dict] whenever it hands on anything. *)
Lemma level2_returns_dict text j : level2 text = Some j -> exists d, j = JDict d.
Proof.
  unfold level2. pose proof (search_brace_span text) as H.
  destruct (search brace_span text) as [m|]; [|discriminate].
  simpl in H. unfold greedy_span in H.
  destruct (from_first LBRACE text) as [r|] eqn:E; [|discriminate].
  destruct (from_first_head _ _ _ E) as [t ->].
  destruct (through_last RBRACE t) as [u|]; [|discriminate].
  injection H as ->.
  destruct (strip_keeps_head LBRACE u eq_refl) as [t' ->].
  apply json_loads_brace.
Qed.

Lemma run_lits (l : str) (q : pattern) s opened grp r :
  run (lits l ++ q) s opened grp = Some r ->
  exists s', (List.length s' <= List.length s)%nat
             /\ run q s' opened grp = Some r.
Proof.
  revert s. induction l as [|x l IH]; intros s H.
  - exists s; split; [lia | exact H].
  - cbn [lits map app run] in H. destruct s as [|c t]; [discriminate|].
    destruct (in_cls (Lit x) c); [|discriminate].
    destruct (IH t H) as (s' & L & R). exists s'; split; [simpl; lia | exact R].
Qed.

Lemma run_greedy (k : cls) (q : pattern) s opened grp r :
  run (Greedy k :: q) s opened grp = Some r ->
  exists s', (List.length s' <= List.length s)%nat
             /\ run q s' opened grp = Some r.
Proof.
  induction s as [|c t IH]; intros H.
  - exists []; split; [lia | exact H].
  - cbn [run] in H. destruct (in_cls k c).
    + match type of H with
      | match ?star with Some _ => _ | None => _ end = _ =>
          destruct star as [r'|] eqn:E
      end.
      * injection H as ->. destruct (IH E) as (s' & L & R).
        exists s'; split; [simpl; lia | exact R].
      * exists (c :: t); split; [lia | exact H].
    + exists (c :: t); split; [lia | exact H].
Qed.

Lemma run_lazy (k : cls) (q : pattern) s opened grp r :
  run (Lazy k :: q) s opened grp = Some r ->
  exists s', (List.length s' <= List.length s)%nat
             /\ run q s' opened grp = Some r.
Proof.
  induction s as [|c t IH]; intros H; cbn [run] in H.
  - destruct (run q [] opened grp) as [r'|] eqn:E; [|discriminate].
    injection H as ->. exists []; split; [lia | exact E].
  - destruct (run q (c :: t) opened grp) as [r'|] eqn:E.
    + injection H as ->. exists (c :: t); split; [lia | exact E].
    + destruct (in_cls k c); [|discriminate].
      destruct (IH H) as (s' & L & R).
      exists s'; split; [simpl; lia | exact R].
Qed.

Lemma run_one (k : cls) (q : pattern) s opened grp r :
  run (One k :: q) s opened grp = Some r ->
  exists c t, s = c :: t /\ in_cls k c = true /\ run q t opened grp = Some r.
Proof.
  cbn [run]. destruct s as [|c t]; [discriminate|].
  destruct (in_cls k c) eqn:E; [|discriminate]. eauto.
Qed.

Lemma run_keeps_group (q : pattern) :
  no_group q = true ->
  forall s opened grp rest g,
    run q s opened grp = Some (rest, g) -> g = grp.
Proof.
  induction q as [|i q IH]; intros Hq s opened grp rest g H.
  - injection H as _ <-. reflexivity.
  - cbn [no_group forallb] in Hq. apply andb_true_iff in Hq as [Hi Hq].
    specialize (IH Hq). destruct i as [k|k|k| |]; try discriminate.
    + cbn [run] in H. destruct s as [|c t]; [discriminate|].
      destruct (in_cls k c); [eapply IH; exact H | discriminate].
    + destruct (run_greedy _ _ _ _ _ _ H) as (s' & _ & R). eapply IH; exact R.
    + destruct (run_lazy _ _ _ _ _ _ H) as (s' & _ & R). eapply IH; exact R.
Qed.

(** Group 1 of either fence pattern opens with a brace. *)
Lemma fence_group_brace (pre post : str) s rest g :
  run (lits pre ++ fenced_object ++ lits post) s [] [] = Some (rest, g) ->
  exists t, g = LBRACE :: t.
Proof.
  intros H. apply run_lits in H as (s1 & _ & H).
  unfold fenced_object in H. cbn [app] in H.
  apply run_greedy in H as (s2 & _ & H).
  change (run (One (Lit LBRACE) :: Lazy Any :: One (Lit RBRACE) :: GroupClose
               :: Greedy Space :: lits post) s2 s2 [] = Some (rest, g)) in H.
  apply run_one in H as (c & t & -> & Hc & H).
  cbn [in_cls] in Hc. apply N.eqb_eq in Hc as ->.
  apply run_lazy in H as (s3 & L3 & H).
  apply run_one in H as (c' & s4 & -> & _ & H).
  change (run (Greedy Space :: lits post) s4 (LBRACE :: t)
            (between (LBRACE :: t) s4) = Some (rest, g)) in H.
  apply run_keeps_group in H.
  - subst g. unfold between. cbn [List.length] in *.
    destruct (S (List.length t) - List.length s4)%nat eqn:E; [lia|].
    eexists; reflexivity.
  - cbn [no_group forallb]. apply forallb_forall. intros i Hi.
    unfold lits in Hi. apply in_map_iff in Hi as (x & <- & _). reflexivity.
Qed.

Lemma search_run (p : pattern) (text : str) (m : rematch) :
  search p text = Some m ->
  exists s rest, run p s [] [] = Some (rest, group1 m).
Proof.
  induction text as [|c t IH]; cbn [search].
  - destruct (run p [] [] []) as [[rest g]|] eqn:E; [|discriminate].
    intros [= <-]. exists [], rest. exact E.
  - destruct (run p (c :: t) [] []) as [[rest g]|] eqn:E; [|exact IH].
    intros [= <-]. exists (c :: t), rest. exact E.
Qed.

(** Level 3 hands on a [dict] whenever it hands on anything. *)
Lemma level3_returns_dict text j :
  level3 fence_patterns text = Some j -> exists d, j = JDict d.
Proof.
  assert (F : forall pre m j',
             search (lits pre ++ fenced_object ++ lits (py "```")) text = Some m ->
             json_loads (strip (group1 m)) = Some j' -> exists d, j' = JDict d).
  { intros pre m j' Hs Hj. apply search_run in Hs as (s & rest & R).
    apply fence_group_brace in R as [t E]. rewrite E in Hj.
    destruct (strip_keeps_head LBRACE t eq_refl) as [t' E'].
    rewrite E' in Hj. eapply json_loads_brace; exact Hj. }
  unfold fence_patterns. cbn [level3].
  destruct (search json_fence text) as [m|] eqn:S1.
  - destruct (json_loads (strip (group1 m))) as [j1|] eqn:J1.
    + intros [= <-]. exact (F (py "```json") m j1 S1 J1).
    + destruct (search plain_fence text) as [m'|] eqn:S2; [|discriminate].
      destruct (json_loads (strip (group1 m'))) as [j2|] eqn:J2; [|discriminate].
      intros [= <-]. exact (F (py "```") m' j2 S2 J2).
  - destruct (search plain_fence text) as [m'|] eqn:S2; [|discriminate].
    destruct (json_loads (strip (group1 m'))) as [j2|] eqn:J2; [|discriminate].
    intros [= <-]. exact (F (py "```") m' j2 S2 J2).
Qed.

(** C4: level 1 hands on whatever [json.loads] reads.  On the text
    [[1, 2]] it returns a list from a function declared to return a
    [dict], and unpacking that list into the schema raises [TypeError]. *)
Theorem level1_returns_a_list :
  level1 (js "[1, 2]") = Some (JList [JInt 1; JInt 2])
  /\ parse_json_response (js "[1, 2]") = Return (JList [JInt 1; JInt 2])
  /\ plain_normalize (js "[1, 2]") = Raise TypeError.
Proof. repeat split; vm_compute; reflexivity. Qed.

(** The outcome of [parse_json_response] once levels 1 and 2 have failed:
    what level 3 found, or the failure of level 4. *)
Lemma parse_json_response_level3 text :
  level1 text = None -> level2 text = None ->
  parse_json_response text =
  match level3 fence_patterns text with
  | Some j => Return j
  | None => Raise (ValueError (unable_to_parse text))
  end.
Proof. intros H1 H2. unfold parse_json_response. rewrite H1, H2. reflexivity. Qed.

(** C3, amended: once levels 1 and 2 have failed, level 3 looks for a
    fence labelled json first and parses what it captured; the generic
    fence is consulted when no labelled fence is found, and also when the
    content of the labelled fence does not parse.  A labelled fence whose
    content parses settles the outcome without the generic fence. *)
Theorem fence_priority text :
  level1 text = None -> level2 text = None ->
  let generic :=
    match search plain_fence text with
    | Some m =>
        match json_loads (strip (group1 m)) with
        | Some j => Return j
        | None => Raise (ValueError (unable_to_parse text))
        end
    | None => Raise (ValueError (unable_to_parse text))
    end in
  parse_json_response text =
  match search json_fence text with
  | Some m =>
      match json_loads (strip (group1 m)) with
      | Some j => Return j
      | None => generic
      end
  | None => generic
  end.
Proof.
  intros H1 H2 generic. rewrite (parse_json_response_level3 text H1 H2).
  subst generic. unfold fence_patterns. cbn [level3].
  destruct (search json_fence text) as [m|].
  - destruct (json_loads (strip (group1 m))); [reflexivity|].
    destruct (search plain_fence text) as [m'|]; [|reflexivity].
    destruct (json_loads (strip (group1 m'))); reflexivity.
  - destruct (search plain_fence text) as [m'|]; [|reflexivity].
    destruct (json_loads (strip (group1 m'))); reflexivity.
Qed.

(** C7: when level 1 fails, level 2 parses the span from the first opening
    brace through the last closing brace; an object between a prefix
    without opening brace and a suffix without closing brace is returned
    as it parses; and a span that does not parse leaves the outcome to
    level 3. *)
Theorem level2_greedy_span text :
  level1 text = None ->
  level2 text =
    match greedy_span text with
    | Some span => json_loads (strip span)
    | None => None
    end
  /\ (forall pre mid post j,
        text = pre ++ (LBRACE :: mid ++ [RBRACE]) ++ post ->
        ~ In LBRACE pre -> ~ In RBRACE post ->
        json_loads (LBRACE :: mid ++ [RBRACE]) = Some j ->
        greedy_span text = Some (LBRACE :: mid ++ [RBRACE])
        /\ parse_json_response text = Return j)
  /\ (forall span,
        greedy_span text = Some span -> json_loads (strip span) = None ->
        parse_json_response text =
        match level3 fence_patterns text with
        | Some j => Return j
        | None => Raise (ValueError (unable_to_parse text))
        end).
Proof.
  intros H1.
  assert (H2 : level2 text =
               match greedy_span text with
               | Some span => json_loads (strip span)
               | None => None
               end).
  { unfold level2. rewrite <- search_brace_span.
    destruct (search brace_span text); reflexivity. }
  split; [exact H2|]. split.
  - intros pre mid post j -> Hpre Hpost Hj.
    assert (G : greedy_span (pre ++ (LBRACE :: mid ++ [RBRACE]) ++ post)
                = Some (LBRACE :: mid ++ [RBRACE])).
    { unfold greedy_span. cbn [app].
      rewrite from_first_app by exact Hpre.
      rewrite <- app_assoc. cbn [app].
      rewrite through_last_app by exact Hpost. reflexivity. }
    split; [exact G|].
    unfold parse_json_response. rewrite H1, H2, G.
    rewrite strip_fixed by reflexivity. rewrite Hj. reflexivity.
  - intros span G Hspan. apply parse_json_response_level3; [exact H1|].
    rewrite H2, G. exact Hspan.
Qed.

(** ** Reading back what the serializer writes *)

Lemma horner_pos (d : Decimal.uint) (p : positive) :
  fold_left (fun acc c => acc * 10 + (c - 48)) (chars_of_uint d) (Npos p)
  = Npos (Pos.of_uint_acc d p).
Proof.
  revert p. induction d; intros p; cbn [chars_of_uint fold_left Pos.of_uint_acc];
    [reflexivity | rewrite <- IHd; f_equal; lia ..].
Qed.

Lemma horner_zero (d : Decimal.uint) :
  int_of_digits (chars_of_uint d) = N.of_uint d.
Proof.
  unfold int_of_digits, N.of_uint.
  induction d; cbn [chars_of_uint fold_left Pos.of_uint];
    [reflexivity | exact IHd | apply horner_pos ..].
Qed.

Lemma int_of_digits_repr (n : N) : int_of_digits (repr_N n) = n.
Proof. unfold repr_N. rewrite horner_zero. apply DecimalN.Unsigned.of_to. Qed.

Lemma chars_of_uint_digits (d : Decimal.uint) :
  forallb is_digit (chars_of_uint d) = true.
Proof. induction d; simpl; auto. Qed.

(** [repr] writes a lone zero, or digits that begin with none. *)
Lemma repr_N_shape (n : N) :
  repr_N n = [48]
  \/ exists c t, repr_N n = c :: t /\ is_digit c = true /\ c <> 48
                 /\ forallb is_digit t = true.
Proof.
  unfold repr_N.
  assert (E : N.to_uint n = Decimal.unorm (N.to_uint n)).
  { rewrite <- (DecimalN.Unsigned.to_of (N.to_uint n)).
    rewrite DecimalN.Unsigned.of_to. reflexivity. }
  rewrite E. unfold Decimal.unorm.
  destruct (Decimal.nzhead (N.to_uint n)) as [|d|d|d|d|d|d|d|d|d|d] eqn:H;
    [left; reflexivity
    | exfalso; exact (DecimalFacts.nzhead_nonzero _ _ H)
    | right; eexists; eexists; cbn [chars_of_uint];
      (split; [reflexivity|]); (split; [reflexivity|]);
      (split; [discriminate | apply chars_of_uint_digits]) ..].
Qed.

Lemma span_digits_app (ds : str) (c : char) (rest : str) :
  forallb is_digit ds = true -> is_digit c = false ->
  span_digits (ds ++ c :: rest) = (ds, c :: rest).
Proof.
  intros Hds Hc. induction ds as [|x ds IH]; simpl.
  - rewrite Hc; reflexivity.
  - simpl in Hds. apply andb_true_iff in Hds as [Hx Hds].
    rewrite Hx, (IH Hds). reflexivity.
Qed.

Lemma match_intpart_repr (n : N) (c : char) (rest : str) :
  is_digit c = false ->
  match_intpart (repr_N n ++ c :: rest) = Some (repr_N n, c :: rest).
Proof.
  intros Hc. destruct (repr_N_shape n) as [-> | (x & t & -> & Hx & H0 & Ht)].
  - reflexivity.
  - cbn [app match_intpart]. apply N.eqb_neq in H0. rewrite H0, Hx.
    rewrite (span_digits_app t c rest Ht Hc). reflexivity.
Qed.

Lemma repr_N_head (n : N) :
  exists c t, repr_N n = c :: t /\ is_digit c = true.
Proof.
  destruct (repr_N_shape n) as [-> | (x & t & -> & Hx & _)];
    eexists; eexists; split; reflexivity || eassumption.
Qed.

Lemma match_number_repr (z : Z) (c : char) (rest : str) :
  ends_item c ->
  match_number (repr_int z ++ c :: rest) = Some (JInt z, c :: rest).
Proof.
  intros Hc.
  assert (Hd : is_digit c = false) by (destruct Hc as [-> | ->]; reflexivity).
  assert (Hf : match_frac (c :: rest) = ([], c :: rest))
    by (destruct Hc as [-> | ->]; reflexivity).
  assert (He : match_exp (c :: rest) = ([], c :: rest))
    by (destruct Hc as [-> | ->]; reflexivity).
  assert (Hpos : forall n,
             match_number (repr_N n ++ c :: rest)
             = Some (JInt (Z.of_N n), c :: rest)).
  { intros n. unfold match_number.
    destruct (repr_N_head n) as (x & t & E & Hx).
    assert (Hm : (x =? MINUS) = false).
    { apply N.eqb_neq; intros ->; discriminate. }
    pose proof (match_intpart_repr n c rest Hd) as Hi.
    pose proof (int_of_digits_repr n) as Hv.
    rewrite E in *. cbn [app] in *. rewrite Hm. rewrite Hi, Hf, He, Hv.
    reflexivity. }
  destruct z as [|p|p]; cbn [repr_int].
  - apply (Hpos 0).
  - apply (Hpos (Npos p)).
  - unfold match_number. cbn [app]. change (MINUS =? MINUS) with true. cbv iota.
    rewrite (match_intpart_repr (Npos p) c rest Hd), Hf, He, int_of_digits_repr.
    reflexivity.
Qed.

Lemma below_32 (c : N) : c < 32 -> In c (map N.of_nat (seq 0 32)).
Proof.
  intros H. rewrite <- (N2Nat.id c). apply in_map, in_seq. lia.
Qed.

(** [scanstring] reads back what [encode_chars] wrote. *)
Lemma scanstring_encode (s rest : str) :
  scanstring (encode_chars s ++ DQUOTE :: rest) = Some (s, rest).
Proof.
  induction s as [|c s IH]; [reflexivity|].
  unfold encode_chars in *. cbn [flat_map]. rewrite <- app_assoc.
  destruct (N.ltb_spec c 32) as [Hlt | Hge].
  - apply below_32 in Hlt. cbn in Hlt.
    repeat (destruct Hlt as [<- | Hlt];
            [cbn; unfold encode_chars in IH; rewrite IH; reflexivity|]).
    destruct Hlt.
  - destruct (N.eqb_spec c 34) as [-> | H34];
      [cbn; rewrite IH; reflexivity|].
    destruct (N.eqb_spec c 92) as [-> | H92];
      [cbn; rewrite IH; reflexivity|].
    assert (E : encode_char c = [c]).
    { unfold encode_char.
      repeat match goal with
             | |- context [c =? ?k] =>
                 destruct (N.eqb_spec c k) as [-> | _]; [lia || congruence|]
             end.
      destruct (N.ltb_spec c 32) as [? | _]; [lia | reflexivity]. }
    rewrite E. cbn [app scanstring]. unfold DQUOTE, BACKSLASH in *.
    apply N.eqb_neq in H34, H92. rewrite H34, H92.
    destruct (N.ltb_spec c 32) as [? | _]; [lia|].
    rewrite IH. reflexivity.
Qed.

Lemma repr_int_head (z : Z) :
  exists h t, repr_int z = h :: t /\ (h = MINUS \/ is_digit h = true).
Proof.
  destruct z as [|p|p]; cbn [repr_int].
  - destruct (repr_N_head 0) as (c & t & -> & H); eauto.
  - destruct (repr_N_head (Npos p)) as (c & t & -> & H); eauto.
  - eauto.
Qed.

Lemma digit_range (h : char) : is_digit h = true -> 48 <= h <= 57.
Proof.
  unfold is_digit. rewrite andb_true_iff, !N.leb_le. tauto.
Qed.

Lemma scan_once_int (z : Z) (f : nat) (c : char) (rest : str) :
  ends_item c ->
  scan_once (S f) (repr_int z ++ c :: rest) = Scanned (JInt z) (c :: rest).
Proof.
  intros Hc. pose proof (match_number_repr z c rest Hc) as M.
  destruct (repr_int_head z) as (h & t & E & Hh).
  rewrite E in *. cbn [app] in *. cbn [scan_once].
  assert (Hq : (h =? DQUOTE) = false /\ (h =? LBRACE) = false
               /\ (h =? LBRACKET) = false).
  { destruct Hh as [-> | Hd]; [repeat split; reflexivity|].
    apply digit_range in Hd. unfold DQUOTE, LBRACE, LBRACKET.
    repeat split; apply N.eqb_neq; lia. }
  destruct Hq as (-> & -> & ->). rewrite M. reflexivity.
Qed.

Lemma scan_once_str (s : str) (f : nat) (rest : str) :
  scan_once (S f) (encode_str s ++ rest) = Scanned (JStr s) rest.
Proof.
  unfold encode_str. cbn [app scan_once]. change (DQUOTE =? DQUOTE) with true.
  cbv iota. rewrite <- app_assoc. cbn [app].
  rewrite scanstring_encode. reflexivity.
Qed.

Section Lists.

Variable A : Type.
Variable enc : A -> str.
Variable val : A -> json.

Hypothesis enc_head :
  forall a, exists h t, enc a = h :: t /\ is_ws h = false /\ h <> RBRACKET.
Hypothesis enc_scan :
  forall a f c rest, ends_item c ->
    scan_once (S f) (enc a ++ c :: rest) = Scanned (val a) (c :: rest).

Lemma join_head (a : A) (items : list A) (rest : str) :
  exists h t, join [COMMA] (map enc (a :: items)) ++ rest = h :: t
              /\ is_ws h = false /\ h <> RBRACKET.
Proof.
  destruct (enc_head a) as (h & t & E & Hw & Hb).
  cbn [map join]. destruct (map enc items); rewrite E; cbn [app]; eauto.
Qed.

Lemma JSONArray_join (items : list A) :
  forall (f : nat) (acc : list json) (rest : str),
    items <> [] -> (List.length items < f)%nat ->
    JSONArray f (join [COMMA] (map enc items) ++ RBRACKET :: rest) acc
    = Scanned (JList (acc ++ map val items)) rest.
Proof.
  induction items as [|a items IH]; intros f acc rest Hne Hf; [congruence|].
  destruct f as [|f]; [inversion Hf|]. cbn [JSONArray].
  destruct f as [|f]; [cbn [List.length] in Hf; lia|].
  destruct items as [|b items].
  - cbn [map join]. rewrite enc_scan by (right; reflexivity).
    reflexivity.
  - change (join [COMMA] (map enc (a :: b :: items)))
      with (enc a ++ [COMMA] ++ join [COMMA] (map enc (b :: items))).
    rewrite <- !app_assoc. cbn [app].
    rewrite enc_scan by (left; reflexivity).
    cbn [skip_ws]. change (is_ws COMMA) with false. cbv iota.
    change (COMMA =? RBRACKET) with false. change (COMMA =? COMMA) with true.
    cbv iota.
    destruct (join_head b items (RBRACKET :: rest)) as (h & t & E & Hw & _).
    rewrite E. cbn [skip_ws]. rewrite Hw. rewrite <- E.
    rewrite IH by (congruence || cbn [List.length] in *; lia).
    rewrite <- app_assoc. reflexivity.
Qed.

Lemma scan_once_list (items : list A) (f : nat) (rest : str) :
  (List.length items + 1 < f)%nat ->
  scan_once f (dumps_list (map enc items) ++ rest)
  = Scanned (JList (map val items)) rest.
Proof.
  intros Hf. destruct f as [|f]; [inversion Hf|].
  unfold dumps_list. cbn [app scan_once].
  change (LBRACKET =? DQUOTE) with false.
  change (LBRACKET =? LBRACE) with false.
  change (LBRACKET =? LBRACKET) with true. cbv iota.
  rewrite <- app_assoc. cbn [app].
  destruct items as [|a items]; [reflexivity|].
  destruct (join_head a items (RBRACKET :: rest)) as (h & t & E & Hw & Hb).
  rewrite E. cbn [skip_ws]. rewrite Hw.
  apply N.eqb_neq in Hb. rewrite Hb. rewrite <- E.
  apply (JSONArray_join (a :: items) f [] rest); [congruence | lia].
Qed.

End Lists.

Lemma scan_once_ints (l : list Z) (f : nat) (rest : str) :
  (List.length l + 1 < f)%nat ->
  scan_once f (dumps_list (map repr_int l) ++ rest)
  = Scanned (JList (map JInt l)) rest.
Proof.
  apply scan_once_list.
  - intros z. destruct (repr_int_head z) as (h & t & E & Hh).
    exists h, t. split; [exact E|].
    destruct Hh as [-> | Hd]; [split; [reflexivity | discriminate]|].
    apply digit_range in Hd. split.
    + unfold is_ws. repeat (apply orb_false_iff; split); apply N.eqb_neq; lia.
    + unfold RBRACKET; lia.
  - intros z f' c rest' Hc. apply scan_once_int; exact Hc.
Qed.

Lemma scan_once_strs (l : list str) (f : nat) (rest : str) :
  (List.length l + 1 < f)%nat ->
  scan_once f (dumps_list (map encode_str l) ++ rest)
  = Scanned (JList (map JStr l)) rest.
Proof.
  apply scan_once_list.
  - intros s. exists DQUOTE, (encode_chars s ++ [DQUOTE]).
    split; [reflexivity|]. split; [reflexivity | discriminate].
  - intros s f' c rest' _. apply scan_once_str.
Qed.

Lemma JSONObject_pair (f : nat) (key vtxt : str) (v : json) (tail : str)
      (pairs : list (str * json)) :
  encode_chars key = key ->
  skip_ws (vtxt ++ tail) = vtxt ++ tail ->
  scan_once f (vtxt ++ tail) = Scanned v tail ->
  JSONObject (S f) (key ++ DQUOTE :: COLON :: vtxt ++ tail) pairs =
  match skip_ws tail with
  | c' :: s4 =>
      if c' =? RBRACE then Scanned (JDict (dict (pairs ++ [(key, v)]))) s4
      else if c' =? COMMA then
        match skip_ws s4 with
        | q :: s5 =>
            if q =? DQUOTE then JSONObject f s5 (pairs ++ [(key, v)])
            else Malformed
        | [] => Malformed
        end
      else Malformed
  | [] => Malformed
  end.
Proof.
  intros Hk Hw Hv. cbn [JSONObject].
  pose proof (scanstring_encode key (COLON :: vtxt ++ tail)) as K.
  rewrite Hk in K. rewrite K.
  cbn [skip_ws]. change (is_ws COLON) with false. cbv iota.
  change (COLON =? COLON) with true. cbv iota.
  rewrite Hw, Hv. reflexivity.
Qed.

Lemma skip_ws_dumps_list (items : list str) (tail : str) :
  skip_ws (dumps_list items ++ tail) = dumps_list items ++ tail.
Proof. reflexivity. Qed.

Lemma serialize_shape (r : CVExtractedFields) :
  serialize r =
  LBRACE :: DQUOTE ::
    py "years_of_employment" ++ DQUOTE :: COLON ::
    dumps_list (map repr_int (years_of_employment r)) ++
    COMMA :: DQUOTE ::
    py "skills" ++ DQUOTE :: COLON ::
    dumps_list (map encode_str (skills r)) ++
    COMMA :: DQUOTE ::
    py "languages" ++ DQUOTE :: COLON ::
    dumps_list (map encode_str (languages r)) ++ [RBRACE].
Proof.
  unfold serialize.
  generalize (dumps_list (map repr_int (years_of_employment r))).
  generalize (dumps_list (map encode_str (skills r))).
  generalize (dumps_list (map encode_str (languages r))).
  reflexivity.
Qed.

(** The decoder reads the serialization of a record back as the record's
    [model_dump()], given recursion budget beyond the longest list. *)
Lemma scan_once_serialize (r : CVExtractedFields) (f : nat) :
  (List.length (years_of_employment r) + List.length (skills r)
   + List.length (languages r) + 6 < f)%nat ->
  scan_once f (serialize r) = Scanned (model_dump r) [].
Proof.
  intros Hf. rewrite serialize_shape. unfold model_dump.
  destruct r as [ys ss ls]. cbn [years_of_employment skills languages] in *.
  do 4 (destruct f as [|f]; [lia|]).
  cbn [scan_once]. change (LBRACE =? DQUOTE) with false.
  change (LBRACE =? LBRACE) with true. cbv iota.
  cbn [skip_ws]. change (is_ws DQUOTE) with false. cbv iota.
  change (DQUOTE =? RBRACE) with false. change (DQUOTE =? DQUOTE) with true.
  cbv iota.
  rewrite (JSONObject_pair _ _ _ (JList (map JInt ys)));
    [ | reflexivity | apply skip_ws_dumps_list | apply scan_once_ints; lia].
  cbn [skip_ws]. change (is_ws COMMA) with false. cbv iota.
  change (COMMA =? RBRACE) with false. change (COMMA =? COMMA) with true.
  cbv iota. cbn [skip_ws]. change (is_ws DQUOTE) with false. cbv iota.
  change (DQUOTE =? DQUOTE) with true. cbv iota.
  rewrite (JSONObject_pair _ _ _ (JList (map JStr ss)));
    [ | reflexivity | apply skip_ws_dumps_list | apply scan_once_strs; lia].
  cbn [skip_ws]. change (is_ws COMMA) with false. cbv iota.
  change (COMMA =? RBRACE) with false. change (COMMA =? COMMA) with true.
  cbv iota. cbn [skip_ws]. change (is_ws DQUOTE) with false. cbv iota.
  change (DQUOTE =? DQUOTE) with true. cbv iota.
  rewrite (JSONObject_pair _ _ _ (JList (map JStr ls)));
    [ | reflexivity | apply skip_ws_dumps_list | apply scan_once_strs; lia].
  cbn [skip_ws]. change (is_ws RBRACE) with false. cbv iota.
  change (RBRACE =? RBRACE) with true. cbv iota.
  reflexivity.
Qed.

Lemma join_length (items : list str) :
  Forall (fun x => x <> []) items ->
  (List.length items <= List.length (join [COMMA] items))%nat.
Proof.
  induction 1 as [|x items Hx _ IH]; [apply le_n|].
  cbn [join]. destruct items as [|y items].
  - destruct x; [congruence | cbn; lia].
  - rewrite !length_app. destruct x; [congruence|].
    cbn [List.length] in *. lia.
Qed.

Lemma dumps_list_length {A : Type} (enc : A -> str) (items : list A) :
  (forall a, enc a <> []) ->
  (List.length items <= List.length (dumps_list (map enc items)))%nat.
Proof.
  intros H. unfold dumps_list. cbn [List.length]. rewrite length_app.
  assert (L := join_length (map enc items)).
  rewrite length_map in L. 
  assert (F : Forall (fun x => x <> []) (map enc items)).
  { apply Forall_forall. intros x Hx. apply in_map_iff in Hx as (a & <- & _).
    apply H. }
  specialize (L F). lia.
Qed.

Lemma serialize_length (r : CVExtractedFields) :
  (List.length (years_of_employment r) + List.length (skills r)
   + List.length (languages r) + 6 < 2 * List.length (serialize r) + 1)%nat.
Proof.
  rewrite serialize_shape.
  assert (Ly := dumps_list_length repr_int (years_of_employment r)).
  assert (Ls := dumps_list_length encode_str (skills r)).
  assert (Ll := dumps_list_length encode_str (languages r)).
  assert (Hr : forall z, repr_int z <> []).
  { intros z. destruct (repr_int_head z) as (h & t & -> & _). discriminate. }
  assert (He : forall s, encode_str s <> []) by (intros s; discriminate).
  specialize (Ly Hr). specialize (Ls He). specialize (Ll He).
  repeat first [rewrite length_app | progress cbn [List.length]]. lia.
Qed.

Lemma json_loads_serialize (r : CVExtractedFields) :
  json_loads (serialize r) = Some (model_dump r).
Proof.
  unfold json_loads.
  replace (skip_ws (serialize r)) with (serialize r)
    by (rewrite serialize_shape; reflexivity).
  rewrite scan_once_serialize by apply serialize_length. reflexivity.
Qed.

Lemma strip_serialize (r : CVExtractedFields) :
  strip (serialize r) = serialize r.
Proof.
  unfold serialize. rewrite !app_assoc.
  match goal with
  | |- strip (?m ++ [RBRACE]) = _ =>
      assert (E : exists t, m = LBRACE :: t) by (eexists; reflexivity);
      destruct E as [t ->]
  end.
  apply (strip_fixed LBRACE RBRACE t); reflexivity.
Qed.

Section Facts.

Variable float_as_int : str -> option Z.
Variable str_as_int : str -> option Z.
Variable Client : Type.
Variable structured_invoke : str -> Client -> result CVExtractedFields * Client.
Variable invoke : str -> Client -> result str * Client.
Variable parser_parse : str -> result json.

Local Abbreviation lax_int := (validate_int float_as_int str_as_int).
Local Abbreviation new := (new_CVExtractedFields float_as_int str_as_int).
Local Abbreviation norm := (normalize float_as_int str_as_int).
Local Abbreviation strategy1 :=
  (structured_output Client structured_invoke).
Local Abbreviation strategy2 :=
  (parser_fallback float_as_int str_as_int Client invoke parser_parse).
Local Abbreviation strategy3 :=
  (manual_parsing float_as_int str_as_int Client invoke).
Local Abbreviation extract :=
  (extract_structured_cv_data float_as_int str_as_int Client
     structured_invoke invoke parser_parse).

Lemma validate_int_map (l : list Z) :
  validate_each lax_int (map JInt l) = Some l.
Proof. induction l as [|x l IH]; simpl; [|rewrite IH]; reflexivity. Qed.

Lemma new_model_dump (r : CVExtractedFields) : new (model_dump r) = Return r.
Proof.
  destruct r as [ys ss ls]. unfold model_dump, new_CVExtractedFields.
  cbn -[validate_each validate_int].
  rewrite validate_int_map, !validate_str_map. reflexivity.
Qed.

(** Validation fails with a schema or unpacking error, never with the
    parse failure of [parse_json_response]. *)
Lemma new_raises obj e :
  new obj = Raise e -> e = ValidationError \/ e = TypeError.
Proof.
  unfold new_CVExtractedFields. destruct obj; try (intros [= <-]; auto).
  destruct (validate_list _ _); [|intros [= <-]; auto].
  destruct (validate_list _ _); [|intros [= <-]; auto].
  destruct (validate_list _ _); [discriminate|intros [= <-]; auto].
Qed.

(** C5, amended: a parsed value is accepted exactly when it is an object
    whose three fields are present and are lists, every element of
    [years_of_employment] being an integer or a value the lax conversion
    turns into one, and every element of [skills] and [languages] being a
    string, the empty string included; the record returned holds exactly
    the converted elements, so nothing is accepted in part. *)
Theorem validation_is_whole obj r :
  new obj = Return r <->
  exists d ys,
    obj = JDict d
    /\ dict_get (py "years_of_employment") d = Some (JList ys)
    /\ Forall2 (fun j z => lax_int j = Some z) ys (years_of_employment r)
    /\ dict_get (py "skills") d = Some (JList (map JStr (skills r)))
    /\ dict_get (py "languages") d = Some (JList (map JStr (languages r))).
Proof.
  split.
  - unfold new_CVExtractedFields. destruct obj as [| | | | | |d]; try discriminate.
    unfold validate_list.
    destruct (dict_get (py "years_of_employment") d) as [[| | | | |ys|]|]
      eqn:Gy; try discriminate.
    destruct (validate_each lax_int ys) as [y|] eqn:Hy; [|discriminate].
    destruct (dict_get (py "skills") d) as [[| | | | |ss|]|] eqn:Gs;
      try discriminate.
    destruct (validate_each validate_str ss) as [s|] eqn:Hs; [|discriminate].
    destruct (dict_get (py "languages") d) as [[| | | | |ls|]|] eqn:Gl;
      try discriminate.
    destruct (validate_each validate_str ls) as [l|] eqn:Hl; [|discriminate].
    intros [= <-]; simpl. exists d, ys.
    apply validate_each_Forall2 in Hy.
    apply validate_str_inv in Hs, Hl. subst. auto.
  - intros (d & ys & -> & Hy & Hys & Hs & Hl).
    unfold new_CVExtractedFields, validate_list. rewrite Hy, Hs, Hl.
    apply validate_each_Forall2 in Hys. rewrite Hys, !validate_str_map.
    destruct r; reflexivity.
Qed.

(** C10: schema validation converts instead of type-checking: when the
    lax conversion reads each of the strings [ys] as the integer at the
    same place in [ns], the object whose years are the strings [ys] is
    accepted, and the record holds the integers [ns]. *)
Theorem validation_coerces_year_strings ys ns sk la :
  Forall2 (fun s n => str_as_int s = Some n) ys ns ->
  new (JDict [(py "years_of_employment", JList (map JStr ys));
              (py "skills", JList (map JStr sk));
              (py "languages", JList (map JStr la))])
  = Return {| years_of_employment := ns; skills := sk; languages := la |}.
Proof.
  intros H.
  assert (V : validate_each lax_int (map JStr ys) = Some ns).
  { induction H as [|s n ys ns Hs _ IH]; [reflexivity|].
    cbn [map validate_each validate_int]. rewrite Hs, IH. reflexivity. }
  unfold new_CVExtractedFields.
  change (dict_get (py "years_of_employment") _)
    with (Some (JList (map JStr ys))).
  change (dict_get (py "skills") _) with (Some (JList (map JStr sk))).
  change (dict_get (py "languages") _) with (Some (JList (map JStr la))).
  cbn [validate_list]. rewrite V, !validate_str_map. reflexivity.
Qed.

(** ** Normalisation *)

(** C2: the first level that yields JSON settles the outcome: it is the
    outcome of validating that JSON.  No later level is tried, and a
    validation failure is a schema or unpacking error, never the parse
    failure of level 4. *)
Theorem validation_failure_is_final text j :
  level1 text = Some j
  \/ (level1 text = None /\ level2 text = Some j)
  \/ (level1 text = None /\ level2 text = None
      /\ level3 fence_patterns text = Some j) ->
  norm text = new j
  /\ forall e, new j = Raise e ->
       norm text = Raise e
       /\ (e = ValidationError \/ e = TypeError)
       /\ forall msg, e <> ValueError msg.
Proof.
  intros H.
  assert (P : parse_json_response text = Return j).
  { unfold parse_json_response.
    destruct H as [H1 | [(H1 & H2) | (H1 & H2 & H3)]].
    - rewrite H1; reflexivity.
    - rewrite H1, H2; reflexivity.
    - rewrite H1, H2, H3; reflexivity. }
  assert (N : norm text = new j) by (unfold normalize; rewrite P; reflexivity).
  split; [exact N|]. intros e He. split; [congruence|].
  destruct (new_raises _ _ He) as [-> | ->]; split; auto; discriminate.
Qed.

(** X17: when level 1 fails and the text has no opening brace, or levels
    2 and 3 fail too, [parse_json_response], and with it normalisation,
    fails with the message that carries the first [min 200 (len text)]
    characters of the text as it came. *)
Theorem parse_failure_excerpt text :
  level1 text = None ->
  ~ In LBRACE text
  \/ (level2 text = None /\ level3 fence_patterns text = None) ->
  let failure :=
    ValueError (py "Unable to parse JSON from LLM response: "
                ++ firstn 200 text ++ py "...") in
  parse_json_response text = Raise failure
  /\ norm text = Raise failure
  /\ List.length (firstn 200 text) = Nat.min 200 (List.length text).
Proof.
  intros H1 H failure.
  assert (H23 : level2 text = None /\ level3 fence_patterns text = None).
  { destruct H as [Hb | H]; [|exact H].
    split; [apply brace_free_level2 | apply brace_free_level3]; exact Hb. }
  destruct H23 as [H2 H3].
  assert (P : parse_json_response text = Raise failure).
  { unfold parse_json_response. rewrite H1, H2, H3. reflexivity. }
  split; [exact P|]. split.
  - unfold normalize. rewrite P. reflexivity.
  - apply length_firstn.
Qed.

(** ** The fallback chain *)

Lemma strategy1_calls prompt st :
  calls (snd (strategy1 prompt st)) = calls st ++ [StructuredCall prompt].
Proof.
  unfold structured_output, bind, llm_structured, ret.
  destruct (structured_invoke prompt (client st)) as [[r|e] c]; reflexivity.
Qed.

Lemma strategy2_calls prompt st :
  calls (snd (strategy2 prompt st)) = calls st ++ [PlainCall prompt].
Proof.
  unfold parser_fallback, bind, llm_invoke, lift, ret.
  destruct (invoke prompt (client st)) as [[content|e] c]; [|reflexivity].
  destruct (parser_parse content) as [j|e]; [|reflexivity].
  destruct (new j); reflexivity.
Qed.

Lemma strategy3_calls prompt st :
  calls (snd (strategy3 prompt st)) = calls st ++ [PlainCall prompt].
Proof.
  unfold manual_parsing, bind, llm_invoke, lift, ret.
  destruct (invoke prompt (client st)) as [[content|e] c]; [|reflexivity].
  destruct (norm content); reflexivity.
Qed.

Lemma extract_unfold text st :
  extract text st =
  let prompt := complete_prompt text in
  let a1 := strategy1 prompt st in
  match fst a1 with
  | Return r => (Return r, snd a1)
  | Raise _ =>
      let a2 := strategy2 prompt (snd a1) in
      match fst a2 with
      | Return r => (Return r, snd a2)
      | Raise _ => strategy3 prompt (snd a2)
      end
  end.
Proof.
  unfold extract_structured_cv_data, try_except. cbv zeta.
  destruct (strategy1 (complete_prompt text) st) as [[r|e] st1];
    [reflexivity|]. cbn [fst snd].
  destruct (strategy2 (complete_prompt text) st1) as [[r|e'] st2];
    reflexivity.
Qed.

(** C6: the strategies run in the order structured output, parser,
    manual.  Each issues exactly one model call when it runs; a strategy
    runs only when every earlier one has raised, whatever it raised; the
    outcome is that of the first strategy that returns, or of the third;
    so the calls issued are one structured call, then at most two plain
    calls. *)
Theorem strategies_in_order text st :
  let prompt := complete_prompt text in
  let a1 := strategy1 prompt st in
  let a2 := strategy2 prompt (snd a1) in
  let a3 := strategy3 prompt (snd a2) in
  calls (snd a1) = calls st ++ [StructuredCall prompt]
  /\ calls (snd a2) = calls (snd a1) ++ [PlainCall prompt]
  /\ calls (snd a3) = calls (snd a2) ++ [PlainCall prompt]
  /\ extract text st =
       match fst a1 with
       | Return r => (Return r, snd a1)
       | Raise _ =>
           match fst a2 with
           | Return r => (Return r, snd a2)
           | Raise _ => a3
           end
       end
  /\ calls (snd (extract text st)) =
       calls st ++
       match fst a1 with
       | Return _ => [StructuredCall prompt]
       | Raise _ =>
           match fst a2 with
           | Return _ => [StructuredCall prompt; PlainCall prompt]
           | Raise _ =>
               [StructuredCall prompt; PlainCall prompt; PlainCall prompt]
           end
       end.
Proof.
  intros prompt a1 a2 a3.
  pose proof (strategy1_calls prompt st) as C1.
  pose proof (strategy2_calls prompt (snd a1)) as C2.
  pose proof (strategy3_calls prompt (snd a2)) as C3.
  fold a1 in C1. fold a2 in C2. fold a3 in C3.
  repeat (split; [assumption|]).
  pose proof (extract_unfold text st) as E. cbv zeta in E.
  fold prompt in E. fold a1 in E. fold a2 in E. fold a3 in E.
  split; [exact E|]. rewrite E.
  destruct (fst a1); [exact C1|].
  destruct (fst a2); cbn [snd].
  - rewrite C2, C1, <- app_assoc. reflexivity.
  - rewrite C3, C2, C1, <- !app_assoc. reflexivity.
Qed.

(** X18: when all three strategies fail, the extraction fails with the
    very exception the third strategy raised, as it was raised: what the
    model client raised on the third call, or else what normalising the
    third response raised, which is the parse failure of level 4, a schema
    validation error or an unpacking error.  A JSON decoding error never
    surfaces. *)
Theorem all_strategies_fail text st e1 st1 e2 st2 e3 st3 :
  strategy1 (complete_prompt text) st = (Raise e1, st1) ->
  strategy2 (complete_prompt text) st1 = (Raise e2, st2) ->
  strategy3 (complete_prompt text) st2 = (Raise e3, st3) ->
  extract text st = (Raise e3, st3)
  /\ (fst (invoke (complete_prompt text) (client st2)) = Raise e3
      \/ exists content,
           fst (invoke (complete_prompt text) (client st2)) = Return content
           /\ norm content = Raise e3
           /\ (e3 = ValueError (unable_to_parse content)
               \/ e3 = ValidationError \/ e3 = TypeError)).
Proof.
  intros H1 H2 H3. split.
  - rewrite extract_unfold. cbv zeta. rewrite H1. cbn [fst snd].
    rewrite H2. cbn [fst snd]. exact H3.
  - revert H3. unfold manual_parsing, bind, llm_invoke, lift, ret.
    destruct (invoke (complete_prompt text) (client st2)) as [[content|e] c];
      cbn [fst].
    + destruct (norm content) as [r|e] eqn:N; [discriminate|].
      intros [= -> _]. right. exists content. repeat split; auto.
      revert N. unfold normalize, parse_json_response.
      destruct (level1 content) as [j|].
      { intros N; right; apply (new_raises _ _ N). }
      destruct (level2 content) as [j|].
      { intros N; right; apply (new_raises _ _ N). }
      destruct (level3 fence_patterns content) as [j|].
      { intros N; right; apply (new_raises _ _ N). }
      intros [= <-]; left; reflexivity.
    + intros [= -> _]. left; reflexivity.
Qed.

(** ** Round trip *)

(** C9: the serialization of a record is read back by level 1 as the
    record's own fields, and validating them returns the record
    unchanged. *)
Theorem serialize_round_trip (r : CVExtractedFields) :
  level1 (serialize r) = Some (model_dump r)
  /\ parse_json_response (serialize r) = Return (model_dump r)
  /\ norm (serialize r) = Return r.
Proof.
  assert (L : level1 (serialize r) = Some (model_dump r)).
  { unfold level1. rewrite strip_serialize. apply json_loads_serialize. }
  assert (P : parse_json_response (serialize r) = Return (model_dump r)).
  { unfold parse_json_response. rewrite L. reflexivity. }
  repeat split; [exact L | exact P |].
  unfold normalize. rewrite P. apply new_model_dump.
Qed.

End Facts.

(** ** The pipeline at concrete inputs *)

(** The structured call and the parser fail, the manual strategy recovers
    the record from prose: three calls, one structured and two plain. *)
Example fallback_to_manual :
  let run := scripted_extract (py "cv")
               [Fails (py "no tools"); Content (py "Sorry.");
                Content embedded_example] in
  fst run = Return {| years_of_employment := [2020%Z];
                      skills := [py "Go"];
                      languages := [py "English"] |}
  /\ map (fun c => match c with
                   | StructuredCall _ => true
                   | PlainCall _ => false
                   end) (calls (snd run)) = [true; false; false].
Proof. split; vm_compute; reflexivity. Qed.


Lemma absent_not_In (c : char) (s : str) : absent c s = true -> ~ In c s.
Proof.
  unfold absent. rewrite forallb_forall. intros H Hin.
  specialize (H c Hin). rewrite N.eqb_refl in H. discriminate.
Qed.

(** C1: with a client that refuses every call, all three strategies fail
    and the caller receives the client's own exception, which is no
    [ValueError] and is wrapped in nothing; with a third response that
    parses but misses the fields, the caller receives the schema
    validation error as it was raised. *)
Lemma extract_raises_low_level :
  (fst (scripted_extract (py "cv")
          [Fails (py "no tools"); Fails (py "busy"); Fails (py "timeout")])
   = Raise (ClientError (py "timeout"))
   /\ low_level (ClientError (py "timeout")) = true)
  /\ (fst (scripted_extract (py "cv")
             [Fails (py "no tools"); Fails (py "busy"); Content (js "{}")])
      = Raise ValidationError
      /\ low_level ValidationError = true).
Proof. repeat split; vm_compute; reflexivity. Qed.

Lemma all_strategies_fail_witness :
  fst (scripted_extract (py "cv")
         [Fails (py "no tools"); Content (js "{}"); Content refusal_example])
  = Raise (ValueError (unable_to_parse refusal_example)).
Proof.
  unfold scripted_extract.
  edestruct (all_strategies_fail plain_float_as_int plain_str_as_int
               (list reply) scripted_structured scripted_invoke loads_parser
               (py "cv")
               {| client := [Fails (py "no tools"); Content (js "{}");
                             Content refusal_example];
                  calls := [] |}) as [H _];
    [reflexivity | reflexivity | reflexivity |].
  rewrite H. reflexivity.
Defined.

Lemma validation_failure_is_final_witness :
  level1 wrong_type_example
  = Some (JDict [(py "years_of_employment", JStr (py "2020"));
                 (py "skills", JList []); (py "languages", JList [])])
  /\ plain_normalize wrong_type_example = Raise ValidationError.
Proof.
  assert (L : level1 wrong_type_example
              = Some (JDict [(py "years_of_employment", JStr (py "2020"));
                             (py "skills", JList []);
                             (py "languages", JList [])]))
    by (vm_compute; reflexivity).
  split; [exact L|].
  destruct (validation_failure_is_final plain_float_as_int plain_str_as_int
              wrong_type_example _ (or_introl L)) as [_ H].
  apply (H ValidationError). vm_compute; reflexivity.
Defined.

(** C8: the text [[1, 2]] has no brace and no fence, and no parse failure
    comes of it: level 1 reads it, [parse_json_response] returns the list
    and normalisation raises [TypeError].  The text 42 goes the same
    way. *)
Theorem brace_free_text_is_read :
  (absent LBRACE (js "[1, 2]") = true
   /\ absent RBRACE (js "[1, 2]") = true
   /\ absent 96 (js "[1, 2]") = true
   /\ parse_json_response (js "[1, 2]") = Return (JList [JInt 1; JInt 2])
   /\ plain_normalize (js "[1, 2]") = Raise TypeError)
  /\ (absent LBRACE (py "42") = true
      /\ absent RBRACE (py "42") = true
      /\ absent 96 (py "42") = true
      /\ parse_json_response (py "42") = Return (JInt 42)
      /\ plain_normalize (py "42") = Raise TypeError).
Proof. repeat split; vm_compute; reflexivity. Qed.

(** C3, as stated, fails: the text has a fence labelled json, its content
    does not parse, and the outcome is the content of the generic fence
    that follows. *)
Lemma generic_fence_after_labelled_fence :
  level1 two_fences_example = None
  /\ level2 two_fences_example = None
  /\ option_map group1 (search json_fence two_fences_example)
     = Some (py "{bad}")
  /\ json_loads (strip (py "{bad}")) = None
  /\ option_map group1 (search plain_fence two_fences_example)
     = Some (js "{'a':1}")
  /\ parse_json_response two_fences_example
     = Return (JDict [(py "a", JInt 1)]).
Proof. repeat split; vm_compute; reflexivity. Qed.

Lemma fence_priority_witness :
  option_map group1 (search json_fence both_fences_example)
  = Some (js "{'a':1}")
  /\ option_map group1 (search plain_fence both_fences_example)
     = Some (js "{'b':2}")
  /\ parse_json_response both_fences_example
     = Return (JDict [(py "a", JInt 1)]).
Proof.
  split; [vm_compute; reflexivity|]. split; [vm_compute; reflexivity|].
  assert (H1 : level1 both_fences_example = None) by (vm_compute; reflexivity).
  assert (H2 : level2 both_fences_example = None) by (vm_compute; reflexivity).
  rewrite (fence_priority both_fences_example H1 H2).
  vm_compute; reflexivity.
Defined.

(** C5, as stated, fails: an object whose only skill is the empty string
    is accepted, though it is not strictly typed. *)
Lemma empty_string_is_accepted :
  let obj := JDict [(py "years_of_employment", JList [JInt 2020]);
                    (py "skills", JList [JStr []]);
                    (py "languages", JList [])] in
  plain_new_CVExtractedFields obj
  = Return {| years_of_employment := [2020%Z]; skills := [[]];
              languages := [] |}
  /\ strictly_typed obj = false.
Proof. split; vm_compute; reflexivity. Qed.

Lemma validation_is_whole_witness :
  plain_new_CVExtractedFields
    (JDict [(py "skills", JList [JStr (py "Go")]);
            (py "years_of_employment", JList [JInt 2020; JStr (py "2021")]);
            (py "extra", JNone);
            (py "languages", JList [])])
  = Return {| years_of_employment := [2020%Z; 2021%Z];
              skills := [py "Go"]; languages := [] |}.
Proof.
  apply (proj2 (validation_is_whole plain_float_as_int plain_str_as_int _ _)).
  eexists. eexists. split; [reflexivity|].
  split; [vm_compute; reflexivity|].
  split; [repeat constructor|].
  split; vm_compute; reflexivity.
Defined.

Lemma level2_greedy_span_witness :
  level1 embedded_example = None
  /\ greedy_span embedded_example
     = Some (js "{'years_of_employment':[2020],'skills':['Go'],'languages':['English']}")
  /\ parse_json_response embedded_example
     = Return (JDict [(py "years_of_employment", JList [JInt 2020]);
                      (py "skills", JList [JStr (py "Go")]);
                      (py "languages", JList [JStr (py "English")])]).
Proof.
  assert (H1 : level1 embedded_example = None) by (vm_compute; reflexivity).
  split; [exact H1|].
  destruct (level2_greedy_span embedded_example H1) as (_ & H & _).
  apply (H (py "Here is the result: ")
           (js "'years_of_employment':[2020],'skills':['Go'],'languages':['English']")
           (py " Thanks.")).
  - vm_compute; reflexivity.
  - apply absent_not_In; vm_compute; reflexivity.
  - apply absent_not_In; vm_compute; reflexivity.
  - vm_compute; reflexivity.
Defined.

Lemma parse_failure_excerpt_witness :
  parse_json_response [] = Raise (ValueError (unable_to_parse []))
  /\ parse_json_response refusal_example
     = Raise (ValueError (py "Unable to parse JSON from LLM response: I cannot help with that...."))
  /\ plain_normalize refusal_example
     = Raise (ValueError (unable_to_parse refusal_example)).
Proof.
  split.
  - apply (parse_failure_excerpt plain_float_as_int plain_str_as_int []).
    + vm_compute; reflexivity.
    + left. apply absent_not_In; vm_compute; reflexivity.
  - destruct (parse_failure_excerpt plain_float_as_int plain_str_as_int
                refusal_example) as (H & H' & _).
    + vm_compute; reflexivity.
    + left. apply absent_not_In; vm_compute; reflexivity.
    + split; [rewrite H; vm_compute; reflexivity | exact H'].
Defined.

Lemma validation_coerces_year_strings_witness :
  plain_str_as_int (py "2020") = Some 2020%Z
  /\ plain_normalize
       (js "{'years_of_employment': ['2020'], 'skills': ['Go'], 'languages': ['English']}")
     = Return {| years_of_employment := [2020%Z];
                 skills := [py "Go"];
                 languages := [py "English"] |}.
Proof.
  assert (H : plain_str_as_int (py "2020") = Some 2020%Z)
    by (vm_compute; reflexivity).
  split; [exact H|].
  unfold plain_normalize, normalize.
  replace (parse_json_response
             (js "{'years_of_employment': ['2020'], 'skills': ['Go'], 'languages': ['English']}"))
    with (Return (JDict [(py "years_of_employment", JList (map JStr [py "2020"]));
                         (py "skills", JList (map JStr [py "Go"]));
                         (py "languages", JList (map JStr [py "English"]))]))
    by (vm_compute; reflexivity).
  apply (validation_coerces_year_strings plain_float_as_int plain_str_as_int
           [py "2020"] [2020%Z] [py "Go"] [py "English"]).
  constructor; [exact H | constructor].
Defined.

(** * Further properties of the pipeline *)

(** ** Surrounding whitespace *)

Lemma lstrip_app (a b : str) :
  lstrip (a ++ b) = match lstrip a with [] => lstrip b | _ :: _ => lstrip a ++ b end.
Proof.
  induction a as [|x a IH]; [reflexivity|].
  cbn [app lstrip]. destruct (isspace x); [exact IH | reflexivity].
Qed.

Lemma lstrip_spaces (s : str) : forallb isspace s = true -> lstrip s = [].
Proof.
  induction s as [|x s IH]; [reflexivity|]. cbn [forallb lstrip].
  intros H. apply andb_true_iff in H as [-> H]. exact (IH H).
Qed.

Lemma forallb_rev (f : char -> bool) (s : str) :
  forallb f s = true -> forallb f (rev s) = true.
Proof.
  rewrite !forallb_forall. intros H x Hx. apply H, in_rev, Hx.
Qed.

Lemma strip_outer_space (pre text post : str) :
  forallb isspace pre = true -> forallb isspace post = true ->
  strip (pre ++ text ++ post) = strip text.
Proof.
  intros Hpre Hpost. unfold strip.
  rewrite lstrip_app, (lstrip_spaces pre Hpre), lstrip_app.
  destruct (lstrip text) as [|x t] eqn:E.
  - rewrite (lstrip_spaces post Hpost). reflexivity.
  - unfold rstrip. rewrite rev_app_distr, lstrip_app.
    rewrite (lstrip_spaces (rev post) (forallb_rev _ _ Hpost)). reflexivity.
Qed.

(** X1: whitespace around a response does not matter to level 1: it reads
    the padded text as it reads the text, and what it reads is what
    [parse_json_response] returns. *)
Theorem level1_ignores_outer_space (pre text post : str) (j : json) :
  forallb isspace pre = true -> forallb isspace post = true ->
  level1 text = Some j ->
  level1 (pre ++ text ++ post) = Some j
  /\ parse_json_response (pre ++ text ++ post) = Return j.
Proof.
  intros Hpre Hpost H.
  assert (L : level1 (pre ++ text ++ post) = Some j).
  { unfold level1 in *. rewrite strip_outer_space by assumption. exact H. }
  split; [exact L|]. unfold parse_json_response. rewrite L. reflexivity.
Qed.

(** ** The span of level 2 *)

Lemma from_first_split (c : char) (s r : str) :
  from_first c s = Some r -> exists pre, s = pre ++ r /\ ~ In c pre.
Proof.
  induction s as [|x t IH]; cbn [from_first]; [discriminate|].
  destruct (N.eqb_spec x c) as [-> | Hx].
  - intros [= <-]. exists []. split; [reflexivity | intros []].
  - intros H. destruct (IH H) as (pre & -> & Hpre).
    exists (x :: pre). split; [reflexivity|].
    intros [? | ?]; [congruence | auto].
Qed.

Lemma from_first_covers (c : char) (pre rest : str) :
  exists q, from_first c (pre ++ c :: rest) = Some (c :: q ++ rest).
Proof.
  induction pre as [|x pre [q IH]]; cbn [app from_first].
  - rewrite N.eqb_refl. exists []. reflexivity.
  - destruct (N.eqb_spec x c) as [-> | _].
    + exists (pre ++ [c]). rewrite <- app_assoc. reflexivity.
    + exists q. exact IH.
Qed.

Lemma through_last_ends (c : char) (s u : str) :
  through_last c s = Some u -> exists m, u = m ++ [c].
Proof.
  revert u. induction s as [|x t IH]; cbn [through_last]; intros u;
    [discriminate|].
  destruct (through_last c t) as [u'|].
  - intros [= <-]. destruct (IH u' eq_refl) as [m ->].
    exists (x :: m). reflexivity.
  - destruct (N.eqb_spec x c) as [-> | _]; [|discriminate].
    intros [= <-]. exists []. reflexivity.
Qed.

(** X2: what level 2 hands to the decoder is the outermost brace pair of
    the text: it opens with a brace, closes with a brace, no opening brace
    comes before it and no closing brace after it.  There is no such span
    exactly when no opening brace of the text is followed by a closing
    one. *)
Theorem brace_span_is_outermost (text : str) :
  (forall m, search brace_span text = Some m ->
     exists pre mid post,
       text = pre ++ group0 m ++ post
       /\ group0 m = LBRACE :: mid ++ [RBRACE]
       /\ ~ In LBRACE pre /\ ~ In RBRACE post)
  /\ (search brace_span text = None <->
      forall pre mid post, text <> pre ++ LBRACE :: mid ++ RBRACE :: post).
Proof.
  pose proof (search_brace_span text) as S. unfold greedy_span in S. split.
  - intros m Hm. rewrite Hm in S. cbn [option_map] in S.
    destruct (from_first LBRACE text) as [r|] eqn:F; [|discriminate].
    destruct (from_first_head _ _ _ F) as [t ->].
    destruct (from_first_split _ _ _ F) as (pre & -> & Hpre).
    destruct (through_last RBRACE t) as [u|] eqn:T; [|discriminate].
    injection S as S.
    destruct (through_last_prefix _ _ _ T) as (post & -> & Hpost).
    destruct (through_last_ends _ _ _ T) as [mid ->].
    exists pre, mid, post. rewrite S. cbn [app]. rewrite <- !app_assoc.
    repeat split; assumption || reflexivity.
  - split.
    + intros Hn pre mid post ->. rewrite Hn in S. cbn [option_map] in S.
      destruct (from_first_covers LBRACE pre (mid ++ RBRACE :: post)) as [q F].
      rewrite F in S.
      destruct (through_last RBRACE (q ++ mid ++ RBRACE :: post)) as [u|] eqn:T;
        [discriminate|].
      apply through_last_none in T. apply T.
      rewrite !in_app_iff. right; right; left; reflexivity.
    + intros Hno. destruct (search brace_span text) as [m|]; [|reflexivity].
      exfalso. cbn [option_map] in S.
      destruct (from_first LBRACE text) as [r|] eqn:F; [|discriminate].
      destruct (from_first_head _ _ _ F) as [t ->].
      destruct (from_first_split _ _ _ F) as (pre & -> & _).
      destruct (through_last RBRACE t) as [u|] eqn:T; [|discriminate].
      destruct (through_last_prefix _ _ _ T) as (post & -> & _).
      destruct (through_last_ends _ _ _ T) as [mid ->].
      apply (Hno pre mid post). rewrite <- app_assoc. reflexivity.
Qed.

(** X3: once level 1 has failed, whatever [parse_json_response] returns
    is a [dict]: levels 2 and 3 only parse text that opens with a
    brace. *)
Theorem recovered_values_are_dicts (text : str) (j : json) :
  level1 text = None ->
  parse_json_response text = Return j -> exists d, j = JDict d.
Proof.
  intros H1. unfold parse_json_response. rewrite H1.
  destruct (level2 text) as [j2|] eqn:H2.
  - intros [= <-]. exact (level2_returns_dict text j2 H2).
  - destruct (level3 fence_patterns text) as [j3|] eqn:H3; [|discriminate].
    intros [= <-]. exact (level3_returns_dict text j3 H3).
Qed.

(** ** What the decoder leaves is a suffix of what it was given *)

Lemma suffix_refl (s : str) : suffix s s.
Proof. exists []. reflexivity. Qed.

Lemma suffix_trans (a b c : str) : suffix a b -> suffix b c -> suffix a c.
Proof.
  intros [p ->] [q ->]. exists (q ++ p). apply app_assoc.
Qed.

Lemma suffix_cons (c : char) (r s : str) : suffix r s -> suffix r (c :: s).
Proof. intros [p ->]. exists (c :: p). reflexivity. Qed.

Lemma suffix_In (c : char) (r s : str) : suffix r s -> In c r -> In c s.
Proof. intros [p ->] H. apply in_or_app. right; exact H. Qed.

Lemma skip_ws_suffix (s : str) : suffix (skip_ws s) s.
Proof.
  induction s as [|c t IH]; cbn [skip_ws]; [apply suffix_refl|].
  destruct (is_ws c); [apply suffix_cons, IH | apply suffix_refl].
Qed.

Lemma lstrip_suffix (s : str) : suffix (lstrip s) s.
Proof.
  induction s as [|c t IH]; cbn [lstrip]; [apply suffix_refl|].
  destruct (isspace c); [apply suffix_cons, IH | apply suffix_refl].
Qed.

Lemma strip_In (c : char) (s : str) : In c (strip s) -> In c s.
Proof.
  unfold strip, rstrip. intros H. apply in_rev in H.
  apply (suffix_In _ _ _ (lstrip_suffix _)) in H. apply in_rev in H.
  exact (suffix_In _ _ _ (lstrip_suffix _) H).
Qed.

Lemma span_digits_suffix (s d r : str) : span_digits s = (d, r) -> suffix r s.
Proof.
  revert d r. induction s as [|c t IH]; cbn [span_digits]; intros d r.
  - intros [= <- <-]. apply suffix_refl.
  - destruct (is_digit c).
    + destruct (span_digits t) as [d' r'] eqn:E. intros [= <- <-].
      apply suffix_cons, (IH _ _ eq_refl).
    + intros [= <- <-]. apply suffix_refl.
Qed.

Lemma startswith_suffix (p s r : str) : startswith p s = Some r -> suffix r s.
Proof.
  revert s. induction p as [|x p IH]; cbn [startswith]; intros s.
  - intros [= <-]. apply suffix_refl.
  - destruct s as [|y s]; [discriminate|]. destruct (x =? y); [|discriminate].
    intros H. apply suffix_cons, (IH _ H).
Qed.

Ltac suffix_steps :=
  repeat first
    [ apply suffix_refl
    | match goal with
      | E : span_digits _ = _ |- _ => exact (span_digits_suffix _ _ _ E)
      | E : startswith _ _ = Some _ |- _ => exact (startswith_suffix _ _ _ E)
      end
    | apply suffix_cons ].

Lemma match_frac_suffix (s f r : str) : match_frac s = (f, r) -> suffix r s.
Proof.
  unfold match_frac. intros H.
  repeat break_match; injection H as <- <-; subst; suffix_steps.
Qed.

Lemma match_exp_suffix (s e r : str) : match_exp s = (e, r) -> suffix r s.
Proof.
  unfold match_exp. intros H.
  repeat break_match; injection H as <- <-; subst; suffix_steps.
Qed.

Lemma match_intpart_suffix (s i r : str) :
  match_intpart s = Some (i, r) -> suffix r s.
Proof.
  unfold match_intpart. intros H.
  repeat break_match; try discriminate; injection H as <- <-; subst;
    suffix_steps.
Qed.

Lemma match_number_suffix (s r : str) (v : json) :
  match_number s = Some (v, r) ->
  suffix r s /\ forall d, v <> JDict d.
Proof.
  unfold match_number. intros H.
  destruct (match s with
            | [] => (false, s)
            | c :: t => if c =? MINUS then (true, t) else (false, s)
            end) as [neg s0] eqn:E0.
  assert (L0 : suffix s0 s).
  { destruct s as [|c t]; [injection E0 as <- <-; apply suffix_refl|].
    destruct (c =? MINUS); injection E0 as <- <-; suffix_steps. }
  destruct (match_intpart s0) as [[i s1]|] eqn:E1; [|discriminate].
  apply match_intpart_suffix in E1.
  destruct (match_frac s1) as [f s2] eqn:E2. apply match_frac_suffix in E2.
  destruct (match_exp s2) as [e s3] eqn:E3. apply match_exp_suffix in E3.
  assert (S3 : suffix s3 s) by eauto using suffix_trans.
  destruct f, e; injection H as <- <-; (split; [exact S3 | discriminate]).
Qed.

Lemma match_constant_suffix (s r : str) (v : json) :
  match_constant s = Some (v, r) ->
  suffix r s /\ forall d, v <> JDict d.
Proof.
  unfold match_constant. intros H.
  repeat break_match; try discriminate; injection H as <- <-;
    (split; [suffix_steps | discriminate]).
Qed.

Lemma scanstring_suffix (s v r : str) :
  scanstring s = Some (v, r) -> suffix r s.
Proof.
  intros H0.
  enough (G : forall n s v r, (List.length s <= n)%nat ->
                scanstring s = Some (v, r) -> suffix r s)
    by (apply (G (List.length s) s v r (le_n _) H0)).
  clear. induction n as [|n IH]; intros s v r Hle H.
  - destruct s; [discriminate | simpl in Hle; lia].
  - destruct s as [|c t]; [discriminate|]. simpl in Hle.
    cbn [scanstring] in H.
    repeat break_match; try discriminate; subst;
      injection H as <- <-; cbn [List.length] in *;
      first
        [ solve [repeat first [apply suffix_refl | apply suffix_cons]]
        | match goal with
          | E : scanstring ?t' = Some (_, ?r') |- suffix ?r' _ =>
              apply (suffix_trans _ t' _);
              [ eapply IH; [|exact E]; cbn [List.length] in *; lia
              | repeat first [apply suffix_refl | apply suffix_cons] ]
          end ].
Qed.

Lemma scan_suffix (f : nat) :
  (forall s v r, scan_once f s = Scanned v r -> suffix r s)
  /\ (forall s p v r, JSONObject f s p = Scanned v r -> suffix r s)
  /\ (forall s a v r, JSONArray f s a = Scanned v r -> suffix r s).
Proof.
  induction f as [|f (IHo & IHp & IHa)];
    [repeat split; intros; discriminate|].
  split; [|split].
  - intros s v r H. destruct s as [|c t]; [discriminate|].
    cbn [scan_once] in H.
    destruct (c =? DQUOTE).
    { destruct (scanstring t) as [[v' r']|] eqn:E; [|discriminate].
      injection H as <- <-. apply suffix_cons, (scanstring_suffix _ _ _ E). }
    destruct (c =? LBRACE).
    { pose proof (skip_ws_suffix t) as L.
      destruct (skip_ws t) as [|c1 t1]; [discriminate|].
      destruct (c1 =? RBRACE).
      - injection H as <- <-.
        apply suffix_cons, (suffix_trans _ _ _ (suffix_cons c1 _ _ (suffix_refl _)) L).
      - destruct (c1 =? DQUOTE); [|discriminate]. apply IHp in H.
        apply suffix_cons, (suffix_trans _ _ _ (suffix_cons c1 _ _ H) L). }
    destruct (c =? LBRACKET).
    { pose proof (skip_ws_suffix t) as L.
      destruct (skip_ws t) as [|c1 t1]; [discriminate|].
      destruct (c1 =? RBRACKET).
      - injection H as <- <-.
        apply suffix_cons, (suffix_trans _ _ _ (suffix_cons c1 _ _ (suffix_refl _)) L).
      - apply IHa in H. apply suffix_cons, (suffix_trans _ _ _ H L). }
    destruct (match_number (c :: t)) as [[v' r']|] eqn:E.
    { injection H as <- <-. apply (match_number_suffix _ _ _ E). }
    destruct (match_constant (c :: t)) as [[v' r']|] eqn:E'; [|discriminate].
    injection H as <- <-. apply (match_constant_suffix _ _ _ E').
  - intros s p v r H. cbn [JSONObject] in H.
    destruct (scanstring s) as [[key s1]|] eqn:E; [|discriminate].
    apply scanstring_suffix in E.
    pose proof (skip_ws_suffix s1) as L1.
    destruct (skip_ws s1) as [|c s2]; [discriminate|].
    destruct (c =? COLON); [|discriminate].
    pose proof (skip_ws_suffix s2) as L2.
    destruct (scan_once f (skip_ws s2)) as [value s3| |] eqn:E3;
      try discriminate.
    apply IHo in E3.
    pose proof (skip_ws_suffix s3) as L3.
    assert (S3 : suffix (skip_ws s3) s).
    { eapply suffix_trans; [exact L3|]. eapply suffix_trans; [exact E3|].
      eapply suffix_trans; [exact L2|].
      eapply suffix_trans; [apply (suffix_cons c), suffix_refl|].
      eapply suffix_trans; [exact L1 | exact E]. }
    destruct (skip_ws s3) as [|c' s4]; [discriminate|].
    destruct (c' =? RBRACE).
    + injection H as <- <-.
      exact (suffix_trans _ _ _ (suffix_cons c' _ _ (suffix_refl _)) S3).
    + destruct (c' =? COMMA); [|discriminate].
      pose proof (skip_ws_suffix s4) as L4.
      destruct (skip_ws s4) as [|q s5]; [discriminate|].
      destruct (q =? DQUOTE); [|discriminate].
      apply IHp in H.
      eapply suffix_trans; [exact H|].
      eapply suffix_trans; [apply (suffix_cons q), suffix_refl|].
      eapply suffix_trans; [exact L4|].
      exact (suffix_trans _ _ _ (suffix_cons c' _ _ (suffix_refl _)) S3).
  - intros s a v r H. cbn [JSONArray] in H.
    destruct (scan_once f s) as [value s1| |] eqn:E1; try discriminate.
    apply IHo in E1.
    pose proof (skip_ws_suffix s1) as L1.
    assert (S1 : suffix (skip_ws s1) s) by (eapply suffix_trans; eassumption).
    destruct (skip_ws s1) as [|c s2]; [discriminate|].
    destruct (c =? RBRACKET).
    + injection H as <- <-.
      exact (suffix_trans _ _ _ (suffix_cons c _ _ (suffix_refl _)) S1).
    + destruct (c =? COMMA); [|discriminate].
      apply IHa in H.
      eapply suffix_trans; [exact H|].
      eapply suffix_trans; [apply skip_ws_suffix|].
      exact (suffix_trans _ _ _ (suffix_cons c _ _ (suffix_refl _)) S1).
Qed.

Lemma JSONObject_rbrace (f : nat) (s : str) (p : list (str * json))
      (v : json) (r : str) :
  JSONObject f s p = Scanned v r -> In RBRACE s.
Proof.
  revert s p. induction f as [|f IH]; intros s p H; [discriminate|].
  cbn [JSONObject] in H.
  destruct (scanstring s) as [[key s1]|] eqn:E; [|discriminate].
  apply scanstring_suffix in E.
  pose proof (skip_ws_suffix s1) as L1.
  destruct (skip_ws s1) as [|c s2]; [discriminate|].
  destruct (c =? COLON); [|discriminate].
  pose proof (skip_ws_suffix s2) as L2.
  destruct (scan_once f (skip_ws s2)) as [value s3| |] eqn:E3;
    try discriminate.
  apply (proj1 (scan_suffix f)) in E3.
  pose proof (skip_ws_suffix s3) as L3.
  assert (S3 : suffix (skip_ws s3) s).
  { eapply suffix_trans; [exact L3|]. eapply suffix_trans; [exact E3|].
    eapply suffix_trans; [exact L2|].
    eapply suffix_trans; [apply (suffix_cons c), suffix_refl|].
    eapply suffix_trans; [exact L1 | exact E]. }
  destruct (skip_ws s3) as [|c' s4]; [discriminate|].
  destruct (N.eqb_spec c' RBRACE) as [-> | _].
  - apply (suffix_In _ _ _ S3). left; reflexivity.
  - destruct (c' =? COMMA); [|discriminate].
    pose proof (skip_ws_suffix s4) as L4.
    destruct (skip_ws s4) as [|q s5]; [discriminate|].
    destruct (q =? DQUOTE); [|discriminate].
    apply IH in H. apply (suffix_In _ _ _ S3). right.
    apply (suffix_In _ _ _ L4). right; exact H.
Qed.

Lemma JSONArray_list (f : nat) (s : str) (a : list json) (v : json) (r : str) :
  JSONArray f s a = Scanned v r -> exists l, v = JList l.
Proof.
  revert s a. induction f as [|f IH]; intros s a H; [discriminate|].
  cbn [JSONArray] in H.
  destruct (scan_once f s) as [value s1| |]; try discriminate.
  destruct (skip_ws s1) as [|c s2]; [discriminate|].
  destruct (c =? RBRACKET); [injection H as <- _; eauto|].
  destruct (c =? COMMA); [exact (IH _ _ H) | discriminate].
Qed.

(** A text that reads as a [dict] holds both braces. *)
Lemma json_loads_dict_braces (s : str) (d : list (str * json)) :
  json_loads s = Some (JDict d) -> In LBRACE s /\ In RBRACE s.
Proof.
  unfold json_loads. pose proof (skip_ws_suffix s) as L.
  destruct (2 * List.length s + 1)%nat as [|f]; [discriminate|].
  destruct (skip_ws s) as [|c t]; [discriminate|]. cbn [scan_once].
  destruct (c =? DQUOTE).
  { destruct (scanstring t) as [[v r]|]; [|discriminate].
    destruct (skip_ws r); discriminate. }
  destruct (N.eqb_spec c LBRACE) as [-> | _].
  - pose proof (skip_ws_suffix t) as Lt.
    destruct (skip_ws t) as [|c1 t1]; [discriminate|].
    intros H. split; [apply (suffix_In _ _ _ L); left; reflexivity|].
    apply (suffix_In _ _ _ L). right. apply (suffix_In _ _ _ Lt).
    destruct (N.eqb_spec c1 RBRACE) as [-> | _]; [left; reflexivity|].
    destruct (c1 =? DQUOTE); [|discriminate].
    destruct (JSONObject f t1 []) as [v r| |] eqn:E; try discriminate.
    right. exact (JSONObject_rbrace _ _ _ _ _ E).
  - destruct (c =? LBRACKET).
    { destruct (skip_ws t) as [|c1 t1]; [discriminate|].
      destruct (c1 =? RBRACKET); [destruct (skip_ws t1); discriminate|].
      destruct (JSONArray f (c1 :: t1) []) as [v r| |] eqn:E; try discriminate.
      destruct (JSONArray_list _ _ _ _ _ E) as [l ->].
      destruct (skip_ws r); discriminate. }
    destruct (match_number (c :: t)) as [[v r]|] eqn:E.
    { destruct (skip_ws r); [|discriminate]. intros [= ->].
      exfalso. exact (proj2 (match_number_suffix _ _ _ E) d eq_refl). }
    destruct (match_constant (c :: t)) as [[v r]|] eqn:E'; [|discriminate].
    destruct (skip_ws r); [|discriminate]. intros [= ->].
    exfalso. exact (proj2 (match_constant_suffix _ _ _ E') d eq_refl).
Qed.

Section MoreFacts.

Variable float_as_int : str -> option Z.
Variable str_as_int : str -> option Z.
Variable Client : Type.
Variable structured_invoke : str -> Client -> result CVExtractedFields * Client.
Variable invoke : str -> Client -> result str * Client.
Variable parser_parse : str -> result json.

Local Abbreviation new := (new_CVExtractedFields float_as_int str_as_int).
Local Abbreviation norm := (normalize float_as_int str_as_int).
Local Abbreviation strategy1 :=
  (structured_output Client structured_invoke).
Local Abbreviation strategy2 :=
  (parser_fallback float_as_int str_as_int Client invoke parser_parse).
Local Abbreviation extract :=
  (extract_structured_cv_data float_as_int str_as_int Client
     structured_invoke invoke parser_parse).

Lemma new_dict_no_type_error (d : list (str * json)) :
  new (JDict d) <> Raise TypeError.
Proof.
  unfold new_CVExtractedFields.
  destruct (validate_list _ _); [|discriminate].
  destruct (validate_list _ _); [|discriminate].
  destruct (validate_list _ _); discriminate.
Qed.

Lemma new_not_dict (j : json) :
  (forall d, j <> JDict d) -> new j = Raise TypeError.
Proof.
  intros H. destruct j; try reflexivity. exfalso. exact (H d eq_refl).
Qed.

(** X4: normalisation ends in [TypeError] exactly when level 1 read the
    whole text as JSON that is no object; no other level and no other
    text leads there. *)
Theorem type_error_only_from_level1 (text : str) :
  norm text = Raise TypeError <->
  exists j, level1 text = Some j /\ forall d, j <> JDict d.
Proof.
  unfold normalize, parse_json_response. split.
  - destruct (level1 text) as [j|] eqn:H1.
    + intros H. exists j. split; [reflexivity|].
      intros d ->. exact (new_dict_no_type_error d H).
    + destruct (level2 text) as [j|] eqn:H2.
      { destruct (level2_returns_dict _ _ H2) as [d ->]. intros H.
        exfalso. exact (new_dict_no_type_error d H). }
      destruct (level3 fence_patterns text) as [j|] eqn:H3; [|discriminate].
      destruct (level3_returns_dict _ _ H3) as [d ->]. intros H.
      exfalso. exact (new_dict_no_type_error d H).
  - intros (j & -> & Hj). apply new_not_dict, Hj.
Qed.

(** X5: a response that lacks an opening brace, or lacks a closing brace,
    never yields a record: normalisation raises the parse failure of
    level 4, or [TypeError] when level 1 read the text as JSON that is no
    object. *)
Theorem no_record_without_braces (text : str) :
  ~ In LBRACE text \/ ~ In RBRACE text ->
  norm text = Raise (ValueError (unable_to_parse text))
  \/ norm text = Raise TypeError.
Proof using float_as_int str_as_int.
  intros H.
  assert (H2 : level2 text = None).
  { unfold level2. destruct H as [H | H].
    - rewrite (search_needs_literal LBRACE) by (simpl; auto). reflexivity.
    - rewrite (search_needs_literal RBRACE) by (simpl; auto). reflexivity. }
  assert (H3 : level3 fence_patterns text = None).
  { unfold level3, fence_patterns. destruct H as [H | H].
    - rewrite !(search_needs_literal LBRACE) by (simpl; auto 20). reflexivity.
    - rewrite !(search_needs_literal RBRACE) by (simpl; auto 20). reflexivity. }
  unfold normalize, parse_json_response. rewrite H2, H3.
  destruct (level1 text) as [j|] eqn:H1; [|left; reflexivity].
  right. apply new_not_dict. intros d ->.
  unfold level1 in H1. apply json_loads_dict_braces in H1 as [Hl Hr].
  apply strip_In in Hl, Hr.
  destruct H as [H | H]; [exact (H Hl) | exact (H Hr)].
Qed.

(** X6: a record that comes out of the fallback strategies has passed the
    schema: when the structured call fails and the extraction returns a
    record, either the second call returned a response that the output
    parser read and whose validation is that record, or the second
    strategy failed, the third call returned a response that
    [parse_json_response] read, and the record is its validation. *)
Theorem fallback_records_are_validated text st e1 st1 r st' :
  strategy1 (complete_prompt text) st = (Raise e1, st1) ->
  extract text st = (Return r, st') ->
  (exists content c2 j,
     invoke (complete_prompt text) (client st1) = (Return content, c2)
     /\ parser_parse content = Return j
     /\ new j = Return r)
  \/ (exists e2 st2 content c3 j,
        strategy2 (complete_prompt text) st1 = (Raise e2, st2)
        /\ invoke (complete_prompt text) (client st2) = (Return content, c3)
        /\ parse_json_response content = Return j
        /\ new j = Return r).
Proof.
  intros H1.
  rewrite (extract_unfold float_as_int str_as_int Client structured_invoke
             invoke parser_parse text st).
  cbv zeta. rewrite H1. cbn [fst snd].
  destruct (strategy2 (complete_prompt text) st1) as [[r2|e2] st2] eqn:S2;
    cbn [fst snd].
  - intros [= <- <-]. left. revert S2.
    unfold parser_fallback, bind, llm_invoke, lift, ret.
    destruct (invoke (complete_prompt text) (client st1))
      as [[content|e] c2]; [|discriminate].
    destruct (parser_parse content) as [j|e] eqn:P; [|discriminate].
    destruct (new j) as [r'|e] eqn:N; [|discriminate].
    intros [= <- _]. exists content, c2, j.
    repeat split; first [assumption | reflexivity].
  - intros H3. right. exists e2, st2. revert H3.
    unfold manual_parsing, bind, llm_invoke, lift, ret.
    destruct (invoke (complete_prompt text) (client st2))
      as [[content|e] c3]; [|discriminate].
    unfold normalize.
    destruct (parse_json_response content) as [j|e] eqn:P; [|discriminate].
    destruct (new j) as [r'|e] eqn:N; [|discriminate].
    intros [= <- _]. exists content, c3, j.
    repeat split; first [assumption | reflexivity].
Qed.

(** X16: an object that lacks one of the three fields, or holds there
    something that is no list, is refused with a validation error,
    whatever else it holds. *)
Theorem missing_field_is_refused (d : list (str * json)) (k : str) :
  In k [py "years_of_employment"; py "skills"; py "languages"] ->
  (forall l, dict_get k d <> Some (JList l)) ->
  new (JDict d) = Raise ValidationError.
Proof using float_as_int str_as_int.
  intros Hk Hd.
  assert (V : forall A (f : json -> option A),
             validate_list f (dict_get k d) = None).
  { intros A f. unfold validate_list.
    destruct (dict_get k d) as [[| | | | |l|]|]; try reflexivity.
    exfalso. exact (Hd l eq_refl). }
  unfold new_CVExtractedFields.
  destruct Hk as [<- | [<- | [<- | []]]].
  - rewrite V. reflexivity.
  - rewrite (V _ validate_str). destruct (validate_list _ _); reflexivity.
  - rewrite (V _ validate_str).
    destruct (validate_list _ _); [|reflexivity].
    destruct (validate_list _ _); reflexivity.
Qed.

End MoreFacts.

(** ** Level 3 after level 2 *)

Lemma run_lits_suffix (l : str) (q : pattern) s opened grp r :
  run (lits l ++ q) s opened grp = Some r ->
  exists s', suffix s' s /\ run q s' opened grp = Some r.
Proof.
  revert s. induction l as [|x l IH]; intros s H.
  - exists s; split; [apply suffix_refl | exact H].
  - change (lits (x :: l) ++ q) with (One (Lit x) :: lits l ++ q) in H.
    apply run_one in H as (c & t & -> & _ & H).
    destruct (IH t H) as (s' & L & R).
    exists s'; split; [apply suffix_cons, L | exact R].
Qed.

Lemma run_greedy_suffix (k : cls) (q : pattern) s opened grp r :
  run (Greedy k :: q) s opened grp = Some r ->
  exists s', suffix s' s /\ run q s' opened grp = Some r.
Proof.
  induction s as [|c t IH]; intros H.
  - exists []; split; [apply suffix_refl | exact H].
  - cbn [run] in H. destruct (in_cls k c).
    + match type of H with
      | match ?star with Some _ => _ | None => _ end = _ =>
          destruct star as [r'|] eqn:E
      end.
      * injection H as ->. destruct (IH E) as (s' & L & R).
        exists s'; split; [apply suffix_cons, L | exact R].
      * exists (c :: t); split; [apply suffix_refl | exact H].
    + exists (c :: t); split; [apply suffix_refl | exact H].
Qed.

Lemma run_lazy_suffix (k : cls) (q : pattern) s opened grp r :
  run (Lazy k :: q) s opened grp = Some r ->
  exists s', suffix s' s /\ run q s' opened grp = Some r.
Proof.
  induction s as [|c t IH]; intros H; cbn [run] in H.
  - destruct (run q [] opened grp) as [r'|] eqn:E; [|discriminate].
    injection H as ->. exists []; split; [apply suffix_refl | exact E].
  - destruct (run q (c :: t) opened grp) as [r'|] eqn:E.
    + injection H as ->. exists (c :: t); split; [apply suffix_refl | exact E].
    + destruct (in_cls k c); [|discriminate].
      destruct (IH H) as (s' & L & R).
      exists s'; split; [apply suffix_cons, L | exact R].
Qed.

Lemma search_run_suffix (p : pattern) (text : str) (m : rematch) :
  search p text = Some m ->
  exists s rest, suffix s text /\ run p s [] [] = Some (rest, group1 m).
Proof.
  induction text as [|c t IH]; cbn [search].
  - destruct (run p [] [] []) as [[rest g]|] eqn:E; [|discriminate].
    intros [= <-]. exists [], rest. split; [apply suffix_refl | exact E].
  - destruct (run p (c :: t) [] []) as [[rest g]|] eqn:E.
    + intros [= <-]. exists (c :: t), rest.
      split; [apply suffix_refl | exact E].
    + intros H. destruct (IH H) as (s & rest & L & R).
      exists s, rest. split; [apply suffix_cons, L | exact R].
Qed.

(** A fence pattern matches only where an opening brace is followed by a
    closing one. *)
Lemma fence_match_braces (pre post : str) (text : str) (m : rematch) :
  search (lits pre ++ fenced_object ++ lits post) text = Some m ->
  exists a mid b, text = a ++ LBRACE :: mid ++ RBRACE :: b.
Proof.
  intros H. apply search_run_suffix in H as (s & rest & [a0 ->] & H).
  apply run_lits_suffix in H as (s1 & [a1 ->] & H).
  unfold fenced_object in H. cbn [app] in H.
  apply run_greedy_suffix in H as (s2 & [a2 ->] & H).
  change (run (One (Lit LBRACE) :: Lazy Any :: One (Lit RBRACE) :: GroupClose
               :: Greedy Space :: lits post) s2 s2 [] = Some (rest, group1 m))
    in H.
  apply run_one in H as (c & t & -> & Hc & H).
  cbn [in_cls] in Hc. apply N.eqb_eq in Hc as ->.
  apply run_lazy_suffix in H as (s3 & [mid ->] & H).
  apply run_one in H as (c' & s4 & -> & Hc' & _).
  cbn [in_cls] in Hc'. apply N.eqb_eq in Hc' as ->.
  exists (a0 ++ a1 ++ a2), mid, s4. rewrite <- !app_assoc. reflexivity.
Qed.

Lemma greedy_span_found (pre mid post : str) :
  exists span, greedy_span (pre ++ LBRACE :: mid ++ RBRACE :: post) = Some span.
Proof.
  unfold greedy_span.
  destruct (from_first_covers LBRACE pre (mid ++ RBRACE :: post)) as [q ->].
  destruct (through_last RBRACE (q ++ mid ++ RBRACE :: post)) as [u|] eqn:T;
    [eauto|].
  exfalso. apply through_last_none in T. apply T.
  rewrite !in_app_iff. right; right; left; reflexivity.
Qed.

(** X15: level 3 decides only after an over-capture: whenever
    [parse_json_response] returns through a fence, level 2 had found a
    brace span in the same text and that span did not parse. *)
Theorem level3_follows_overcapture (text : str) (j : json) :
  level1 text = None -> level2 text = None ->
  level3 fence_patterns text = Some j ->
  parse_json_response text = Return j
  /\ exists span, greedy_span text = Some span
                  /\ json_loads (strip span) = None.
Proof.
  intros H1 H2 H3. split.
  - rewrite (parse_json_response_level3 text H1 H2), H3. reflexivity.
  - assert (B : exists a mid b, text = a ++ LBRACE :: mid ++ RBRACE :: b).
    { revert H3. unfold fence_patterns. cbn [level3].
      destruct (search json_fence text) as [m|] eqn:S1;
        [intros _; exact (fence_match_braces _ _ _ _ S1)|].
      destruct (search plain_fence text) as [m'|] eqn:S2; [|discriminate].
      intros _. exact (fence_match_braces _ _ _ _ S2). }
    destruct B as (a & mid & b & ->).
    destruct (greedy_span_found a mid b) as [span G].
    exists span. split; [exact G|].
    revert H2. unfold level2. rewrite <- search_brace_span in G.
    destruct (search brace_span (a ++ LBRACE :: mid ++ RBRACE :: b)) as [m|];
      [|discriminate].
    injection G as <-. auto.
Qed.

(** ** get_llm *)

(** X7: [get_llm] always passes [base_url], [api_key], [model],
    [temperature] and [seed]; it passes [max_tokens] only when it is not
    zero, so a limit of zero is dropped, not sent; and [base_url] is the
    environment's [OLLAMA_BASE_URL] whenever that is set, even to the
    empty string, and the local default otherwise. *)
Theorem get_llm_params_keys (getenv : str -> option str)
    (model temperature : str) (max_tokens seed : Z) :
  let params := get_llm_params getenv model temperature max_tokens seed in
  dict_get (py "max_tokens") params
    = (if (max_tokens =? 0)%Z then None else Some (JInt max_tokens))
  /\ dict_get (py "base_url") params
     = Some (JStr match getenv (py "OLLAMA_BASE_URL") with
                  | Some url => url
                  | None => py "http://localhost:11434/v1"
                  end)
  /\ dict_get (py "api_key") params = Some (JStr (py "ollama"))
  /\ dict_get (py "model") params = Some (JStr model)
  /\ dict_get (py "temperature") params = Some (JFloat temperature)
  /\ dict_get (py "seed") params = Some (JInt seed)
  /\ List.length params = (if (max_tokens =? 0)%Z then 5 else 6)%nat.
Proof.
  unfold get_llm_params. cbv zeta.
  destruct (max_tokens =? 0)%Z; repeat split; reflexivity.
Qed.

(** * The upload path *)

Section UploadFacts.

Variable World : Type.
Variable Doc : Type.
Variable Page : Type.
Variable TextDict : Type.
Variable lower : str -> str.
Variable magic_from_buffer : bytes -> outcome str.
Variable fitz_open_stream : pdf_source -> World -> outcome Doc * World.
Variable fitz_open_file : str -> World -> outcome Doc * World.
Variable fitz_load_page : Doc -> Z -> World -> outcome Page * World.
Variable fitz_get_text : Page -> World -> outcome str * World.
Variable fitz_get_text_dict : Page -> World -> outcome TextDict * World.
Variable fitz_close : Doc -> World -> outcome unit * World.

Local Abbreviation validate :=
  (read_and_validate_file World Doc Page lower magic_from_buffer).
Local Abbreviation pdf_text :=
  (extract_text_from_pdf World Doc Page fitz_open_stream fitz_load_page
     fitz_get_text fitz_close).
Local Abbreviation pdf_details :=
  (extract_text_with_details World Doc Page TextDict fitz_open_file
     fitz_load_page fitz_get_text_dict fitz_close).
Local Abbreviation upload :=
  (upload_pdf World Doc Page lower magic_from_buffer fitz_open_stream
     fitz_load_page fitz_get_text fitz_close).

(** X8: a file whose lower-cased name does not end in [.pdf] is refused
    with status 400 before anything happens: the upload is not read and
    no document is opened, by [read_and_validate_file] and so by
    [upload_pdf]. *)
Theorem wrong_extension_refused_unread (file : UploadFile World) st :
  endswith (py ".pdf") (lower (upload_filename file)) = false ->
  validate file st
  = (Raises (HTTPException 400 (py "Only PDF files are allowed")), st)
  /\ upload file st
     = (Raises (HTTPException 400 (py "Only PDF files are allowed")), st).
Proof.
  intros H.
  assert (V : validate file st
              = (Raises (HTTPException 400 (py "Only PDF files are allowed")),
                 st)).
  { unfold read_and_validate_file. rewrite H. reflexivity. }
  split; [exact V|]. unfold upload_pdf, io_bind. rewrite V. reflexivity.
Qed.

(** X9: what [read_and_validate_file] returns is the content it read, read
    once, from a file named [.pdf] and sniffed as [application/pdf]. *)
Theorem validated_content_is_pdf (file : UploadFile World) st content st' :
  validate file st = (Returns content, st') ->
  endswith (py ".pdf") (lower (upload_filename file)) = true
  /\ upload_read file (world st) = (Returns content, world st')
  /\ magic_from_buffer content = Returns (py "application/pdf")
  /\ events st' = events st ++ [FileRead].
Proof.
  unfold read_and_validate_file.
  destruct (endswith (py ".pdf") (lower (upload_filename file)));
    [|discriminate].
  cbn [negb]. unfold io_bind, io_call, io_pure, io_raise, io_ret.
  destruct (upload_read file (world st)) as [[c|e] w]; [|discriminate].
  destruct (magic_from_buffer c) as [mime|e] eqn:M; [|discriminate].
  destruct (str_eqb mime (py "application/pdf")) eqn:E; [|discriminate].
  cbn [negb]. intros [= <- <-]. apply str_eqb_eq in E. subst mime.
  repeat split; assumption || reflexivity.
Qed.

(** X10: content that is not sniffed as [application/pdf] is refused with
    status 400 after the one read, whatever the file is called; nothing
    of it is returned. *)
Theorem wrong_content_refused (file : UploadFile World) st content w mime :
  endswith (py ".pdf") (lower (upload_filename file)) = true ->
  upload_read file (world st) = (Returns content, w) ->
  magic_from_buffer content = Returns mime ->
  mime <> py "application/pdf" ->
  validate file st
  = (Raises (HTTPException 400 (py "File is not a valid PDF")),
     {| world := w; events := events st ++ [FileRead] |}).
Proof.
  intros Hn Hr Hm Hne. unfold read_and_validate_file. rewrite Hn.
  cbn [negb]. unfold io_bind, io_call, io_pure, io_raise. rewrite Hr, Hm.
  destruct (str_eqb mime (py "application/pdf")) eqn:E; [|reflexivity].
  apply str_eqb_eq in E. contradiction.
Qed.

(** X11: when [extract_text_from_pdf] returns, it has opened its source as
    a stream (a path as well as bytes), loaded the page asked for, read
    its text and closed the document, in that order and nothing else; the
    text returned is the text read. *)
Theorem pdf_text_trace (source : pdf_source) (n : Z) st text st' :
  pdf_text source n st = (Returns text, st') ->
  exists doc page w1 w2 w3,
    fitz_open_stream source (world st) = (Returns doc, w1)
    /\ fitz_load_page doc n w1 = (Returns page, w2)
    /\ fitz_get_text page w2 = (Returns text, w3)
    /\ fitz_close doc w3 = (Returns tt, world st')
    /\ events st' = events st ++ [OpenStream source; LoadPage doc n;
                                  GetText page; Close doc].
Proof.
  unfold extract_text_from_pdf.
  replace (match source with PdfPath _ => source | PdfBytes _ => source end)
    with source by (destruct source; reflexivity).
  intros H. unfold io_bind, io_call, io_ret in H.
  destruct (fitz_open_stream source (world st)) as [[doc|e0] w1] eqn:O;
    [|discriminate]. cbn [world events] in H.
  destruct (fitz_load_page doc n w1) as [[page|e1] w2] eqn:L; [|discriminate].
  cbn [world events] in H.
  destruct (fitz_get_text page w2) as [[t|e2] w3] eqn:G; [|discriminate].
  cbn [world events] in H.
  destruct (fitz_close doc w3) as [[[]|e3] w4] eqn:C; [|discriminate].
  injection H as <- <-. exists doc, page, w1, w2, w3. cbn [world events].
  rewrite <- !app_assoc. repeat split; assumption || reflexivity.
Qed.

(** X12: when [extract_text_from_pdf] raises after the document was
    opened, the document is not closed unless it is the closing that
    raised: a page that cannot be loaded, or whose text cannot be read,
    leaves the opened document open. *)
Theorem pdf_left_open_on_failure (source : pdf_source) (n : Z) st e st' :
  pdf_text source n st = (Raises e, st') ->
  events st' = events st ++ [OpenStream source]
  \/ (exists doc,
        events st' = events st ++ [OpenStream source; LoadPage doc n])
  \/ (exists doc page,
        events st' = events st ++ [OpenStream source; LoadPage doc n;
                                    GetText page])
  \/ (exists doc page w,
        fitz_close doc w = (Raises e, world st')
        /\ events st' = events st ++ [OpenStream source; LoadPage doc n;
                                      GetText page; Close doc]).
Proof.
  unfold extract_text_from_pdf.
  replace (match source with PdfPath _ => source | PdfBytes _ => source end)
    with source by (destruct source; reflexivity).
  intros H. unfold io_bind, io_call, io_ret in H.
  destruct (fitz_open_stream source (world st)) as [[doc|e0] w1].
  2: { injection H as <- <-. left. reflexivity. }
  cbn [world events] in H.
  destruct (fitz_load_page doc n w1) as [[page|e1] w2].
  2: { injection H as <- <-. right; left. exists doc. cbn [events].
       rewrite <- app_assoc. reflexivity. }
  cbn [world events] in H.
  destruct (fitz_get_text page w2) as [[t|e2] w3].
  2: { injection H as <- <-. right; right; left. exists doc, page.
       cbn [events]. rewrite <- !app_assoc. reflexivity. }
  cbn [world events] in H.
  destruct (fitz_close doc w3) as [[[]|e3] w4] eqn:C; [discriminate|].
  injection H as <- <-. right; right; right. exists doc, page, w3.
  cbn [world events]. rewrite <- !app_assoc. split; [exact C | reflexivity].
Qed.

(** X13: [extract_text_with_details] opens its path by file name, never as
    a stream, and asks for the text as a dict; when it returns, the calls
    were open, load, read and close, and when it raises, what it did is a
    prefix of these, so that a failure to load or read leaves the document
    open here too. *)
Theorem pdf_details_trace (path : str) (n : Z) st :
  exists trace,
    events (snd (pdf_details path n st)) = events st ++ trace
    /\ match fst (pdf_details path n st) with
       | Returns _ =>
           exists doc page,
             trace = [OpenFile path; LoadPage doc n; GetTextDict page;
                      Close doc]
       | Raises _ =>
           trace = [OpenFile path]
           \/ (exists doc, trace = [OpenFile path; LoadPage doc n])
           \/ (exists doc page,
                 trace = [OpenFile path; LoadPage doc n; GetTextDict page])
           \/ (exists doc page w e,
                 fitz_close doc w = (Raises e, world (snd (pdf_details path n st)))
                 /\ trace = [OpenFile path; LoadPage doc n; GetTextDict page;
                             Close doc])
       end.
Proof.
  unfold extract_text_with_details, io_bind, io_call, io_ret.
  destruct (fitz_open_file path (world st)) as [[doc|e0] w1].
  2: { eexists. split; [reflexivity|]. left. reflexivity. }
  cbn [world events].
  destruct (fitz_load_page doc n w1) as [[page|e1] w2].
  2: { eexists. cbn [fst snd events]. rewrite <- app_assoc.
       split; [reflexivity|]. right; left. exists doc. reflexivity. }
  cbn [world events].
  destruct (fitz_get_text_dict page w2) as [[t|e2] w3].
  2: { eexists. cbn [fst snd events]. rewrite <- !app_assoc.
       split; [reflexivity|]. right; right; left. exists doc, page.
       reflexivity. }
  cbn [world events].
  destruct (fitz_close doc w3) as [[[]|e3] w4] eqn:C.
  - eexists. cbn [fst snd events]. rewrite <- !app_assoc.
    split; [reflexivity|]. exists doc, page. reflexivity.
  - eexists. cbn [fst snd events world]. rewrite <- !app_assoc.
    split; [reflexivity|]. right; right; right. exists doc, page, w3, e3.
    split; [exact C | reflexivity].
Qed.

(** X14: the response of [upload_pdf] describes the bytes it read: the
    upload's [read()] returned them, they were sniffed as PDF, the
    document was opened from them as a stream, page 0 of that document
    was loaded, and the text read from that page is the text of the
    response; the size is their length and the name is the upload's; the
    upload is read once and the document is closed.  A file that
    validation refuses raises the same exception from [upload_pdf], and
    no document is opened for it. *)
Theorem upload_response_describes_content (file : UploadFile World) st :
  (forall resp st', upload file st = (Returns resp, st') ->
     exists content w0 doc w1 page w2 w3,
       upload_read file (world st) = (Returns content, w0)
       /\ magic_from_buffer content = Returns (py "application/pdf")
       /\ fitz_open_stream (PdfBytes content) w0 = (Returns doc, w1)
       /\ fitz_load_page doc 0 w1 = (Returns page, w2)
       /\ fitz_get_text page w2 = (Returns (extracted_text resp), w3)
       /\ fitz_close doc w3 = (Returns tt, world st')
       /\ message resp = py "PDF uploaded successfully"
       /\ filename resp = upload_filename file
       /\ size resp = List.length content
       /\ events st' = events st ++ [FileRead; OpenStream (PdfBytes content);
                                     LoadPage doc 0; GetText page; Close doc])
  /\ (forall e st1, validate file st = (Raises e, st1) ->
        upload file st = (Raises e, st1)).
Proof.
  split.
  - intros resp st' H.
    unfold upload_pdf, read_and_validate_file, extract_text_from_pdf in H.
    destruct (endswith (py ".pdf") (lower (upload_filename file)));
      [|discriminate].
    cbn [negb] in H. unfold io_bind, io_call, io_pure, io_raise, io_ret in H.
    destruct (upload_read file (world st)) as [[content|e] w0] eqn:R;
      [|discriminate].
    destruct (magic_from_buffer content) as [mime|e] eqn:M; [|discriminate].
    destruct (str_eqb mime (py "application/pdf")) eqn:E; [|discriminate].
    apply str_eqb_eq in E. subst mime. cbn [negb world events] in H.
    destruct (fitz_open_stream (PdfBytes content) w0) as [[doc|e] w1] eqn:O;
      [|discriminate].
    cbn [world events] in H.
    destruct (fitz_load_page doc 0 w1) as [[page|e] w2] eqn:L; [|discriminate].
    cbn [world events] in H.
    destruct (fitz_get_text page w2) as [[text|e] w3] eqn:G; [|discriminate].
    cbn [world events] in H.
    destruct (fitz_close doc w3) as [[[]|e] w4] eqn:C; [|discriminate].
    injection H as <- <-. exists content, w0, doc, w1, page, w2, w3.
    cbn [world events message filename size extracted_text].
    rewrite <- !app_assoc.
    repeat split; first [assumption | reflexivity].
  - intros e st1 V. unfold upload_pdf, io_bind. rewrite V. reflexivity.
Qed.

End UploadFacts.

(** ** The further properties at concrete inputs *)

Lemma level1_ignores_outer_space_witness :
  parse_json_response ([10; 32; 32] ++ js "{'a': 1}" ++ [13; 10])
  = Return (JDict [(py "a", JInt 1)]).
Proof.
  apply (level1_ignores_outer_space [10; 32; 32] (js "{'a': 1}") [13; 10]);
    vm_compute; reflexivity.
Defined.

Lemma brace_span_is_outermost_witness :
  exists pre mid post,
    embedded_example = pre ++ (LBRACE :: mid ++ [RBRACE]) ++ post
    /\ ~ In LBRACE pre /\ ~ In RBRACE post.
Proof.
  destruct (brace_span_is_outermost embedded_example) as [H _].
  destruct (search brace_span embedded_example) as [m|] eqn:E;
    [|vm_compute in E; discriminate].
  destruct (H m eq_refl) as (pre & mid & post & Ht & Hm & Hpre & Hpost).
  exists pre, mid, post. rewrite <- Hm. auto.
Defined.

Lemma recovered_values_are_dicts_witness :
  exists d,
    JDict [(py "years_of_employment", JList [JInt 2020]);
           (py "skills", JList [JStr (py "Go")]);
           (py "languages", JList [JStr (py "English")])] = JDict d.
Proof.
  apply (recovered_values_are_dicts embedded_example); vm_compute; reflexivity.
Defined.

Lemma type_error_only_from_level1_witness :
  plain_normalize (js "[1, 2]") = Raise TypeError.
Proof.
  apply (proj2 (type_error_only_from_level1 plain_float_as_int
                  plain_str_as_int (js "[1, 2]"))).
  exists (JList [JInt 1; JInt 2]).
  split; [vm_compute; reflexivity | discriminate].
Defined.

Lemma no_record_without_braces_witness :
  plain_normalize truncated_example
  = Raise (ValueError (unable_to_parse truncated_example))
  \/ plain_normalize truncated_example = Raise TypeError.
Proof.
  apply (no_record_without_braces plain_float_as_int plain_str_as_int).
  right. apply absent_not_In. vm_compute; reflexivity.
Defined.

Lemma fallback_records_are_validated_witness :
  exists e2 st2 content c3 j,
    parser_fallback plain_float_as_int plain_str_as_int (list reply)
      scripted_invoke loads_parser (complete_prompt (py "cv"))
      {| client := [Content (py "Sorry."); Content embedded_example];
         calls := [StructuredCall (complete_prompt (py "cv"))] |}
    = (Raise e2, st2)
    /\ scripted_invoke (complete_prompt (py "cv")) (client st2)
       = (Return content, c3)
    /\ parse_json_response content = Return j
    /\ plain_new_CVExtractedFields j
       = Return {| years_of_employment := [2020%Z];
                   skills := [py "Go"];
                   languages := [py "English"] |}.
Proof.
  destruct (fallback_records_are_validated plain_float_as_int
              plain_str_as_int (list reply) scripted_structured
              scripted_invoke loads_parser (py "cv")
              {| client := [Fails (py "no tools"); Content (py "Sorry.");
                            Content embedded_example];
                 calls := [] |}
              (ClientError (py "no tools"))
              {| client := [Content (py "Sorry."); Content embedded_example];
                 calls := [StructuredCall (complete_prompt (py "cv"))] |}
              {| years_of_employment := [2020%Z];
                 skills := [py "Go"];
                 languages := [py "English"] |}
              (snd (scripted_extract (py "cv")
                      [Fails (py "no tools"); Content (py "Sorry.");
                       Content embedded_example])))
    as [(content & c2 & j & I & P & _) | H];
    [vm_compute; reflexivity | vm_compute; reflexivity | | exact H].
  exfalso. vm_compute in I. injection I as <- _.
  vm_compute in P. discriminate.
Defined.

Lemma wrong_extension_refused_unread_witness :
  one_page_upload (upload_of (py "cv.docx") pdf_bytes) fresh
  = (Raises (HTTPException 400 (py "Only PDF files are allowed")), fresh).
Proof.
  apply (wrong_extension_refused_unread unit unit unit ascii_lower
           sniff_signature one_page_open one_page_load one_page_get_text
           one_page_close (upload_of (py "cv.docx") pdf_bytes) fresh).
  vm_compute; reflexivity.
Defined.

Lemma validated_content_is_pdf_witness :
  sniff_signature pdf_bytes = Returns (py "application/pdf")
  /\ events (snd (one_page_validate (upload_of (py "CV.PDF") pdf_bytes) fresh))
     = [FileRead].
Proof.
  destruct (validated_content_is_pdf unit unit unit ascii_lower
              sniff_signature (upload_of (py "CV.PDF") pdf_bytes) fresh
              pdf_bytes {| world := tt; events := [FileRead] |})
    as (_ & _ & M & _); [vm_compute; reflexivity|].
  split; [exact M | vm_compute; reflexivity].
Defined.

Lemma wrong_content_refused_witness :
  one_page_validate (upload_of (py "cv.pdf") [Byte.x50; Byte.x4b]) fresh
  = (Raises (HTTPException 400 (py "File is not a valid PDF")),
     {| world := tt; events := [FileRead] |}).
Proof.
  apply (wrong_content_refused unit unit unit ascii_lower sniff_signature
           (upload_of (py "cv.pdf") [Byte.x50; Byte.x4b]) fresh
           [Byte.x50; Byte.x4b] tt (py "application/octet-stream"));
    try (vm_compute; reflexivity).
  vm_compute; discriminate.
Defined.

Lemma pdf_text_trace_witness :
  events (snd (one_page_text (PdfBytes pdf_bytes) 0 fresh))
  = [OpenStream (PdfBytes pdf_bytes); LoadPage tt 0; GetText tt; Close tt].
Proof.
  destruct (pdf_text_trace unit unit unit one_page_open one_page_load
              one_page_get_text one_page_close (PdfBytes pdf_bytes) 0%Z fresh
              (py "Jane Doe")
              (snd (one_page_text (PdfBytes pdf_bytes) 0 fresh)))
    as ([] & [] & _ & _ & _ & _ & _ & _ & _ & E); [vm_compute; reflexivity|].
  exact E.
Defined.

Lemma pdf_left_open_on_failure_witness :
  ~ In (Close tt) (events (snd (one_page_text (PdfBytes pdf_bytes) 5 fresh))).
Proof.
  destruct (pdf_left_open_on_failure unit unit unit one_page_open
              one_page_load one_page_get_text one_page_close
              (PdfBytes pdf_bytes) 5%Z fresh
              (LibraryError (py "page not in document"))
              (snd (one_page_text (PdfBytes pdf_bytes) 5 fresh)))
    as [E | [[d E] | [(d & p & E) | (d & p & w & C & _)]]];
    [vm_compute; reflexivity | | | |].
  - rewrite E. cbn. intros [H | []]; discriminate.
  - rewrite E. cbn. intros [H | [H | []]]; discriminate.
  - rewrite E. cbn. intros [H | [H | [H | []]]]; discriminate.
  - vm_compute in C. discriminate.
Defined.

Lemma upload_response_describes_content_witness :
  exists content,
    upload_read (upload_of (py "cv.pdf") pdf_bytes) tt = (Returns content, tt)
    /\ sniff_signature content = Returns (py "application/pdf")
    /\ events (snd (one_page_upload (upload_of (py "cv.pdf") pdf_bytes) fresh))
       = [FileRead; OpenStream (PdfBytes content); LoadPage tt 0;
          GetText tt; Close tt].
Proof.
  destruct (upload_response_describes_content unit unit unit ascii_lower
              sniff_signature one_page_open one_page_load one_page_get_text
              one_page_close (upload_of (py "cv.pdf") pdf_bytes) fresh)
    as [H _].
  destruct (H {| message := py "PDF uploaded successfully";
                 filename := py "cv.pdf";
                 size := 6;
                 extracted_text := py "Jane Doe" |}
              (snd (one_page_upload (upload_of (py "cv.pdf") pdf_bytes) fresh)))
    as (content & [] & [] & [] & [] & [] & [] & R & M & _ & _ & _ & _ & _
        & _ & _ & E);
    [vm_compute; reflexivity|].
  exists content. repeat split; assumption.
Defined.

Lemma level3_follows_overcapture_witness :
  parse_json_response two_fences_example = Return (JDict [(py "a", JInt 1)])
  /\ exists span, greedy_span two_fences_example = Some span
                  /\ json_loads (strip span) = None.
Proof.
  apply (level3_follows_overcapture two_fences_example); vm_compute; reflexivity.
Defined.

Lemma missing_field_is_refused_witness :
  plain_new_CVExtractedFields
    (JDict [(py "years_of_employment", JList [JInt 2020]);
            (py "skills", JList [])])
  = Raise ValidationError.
Proof.
  apply (missing_field_is_refused plain_float_as_int plain_str_as_int _
           (py "languages")).
  - right; right; left; reflexivity.
  - intros l. vm_compute. discriminate.
Defined.
